(** * Moderator pings and message helpers of the bot: a shallow embedding

    Embedded sources:
    - [bot/utils/messages.py]: [reaction_check], [wait_for_deletion],
      [sub_clyde];
    - [bot/exts/moderation/modpings.py]: the [ModPings] cog.

    Conventions.  A Python [str] is a list of Unicode code points, so that
    [len] is [length].  A naive [datetime] is the count of microseconds of
    its wall-clock reading since 0001-01-01 00:00:00 ([datetime.min]), a
    [timedelta] a count of microseconds.  *)

From Stdlib Require Import ZArith Bool QArith.
From stdpp Require Import gmap list.

Local Open Scope Z_scope.

(** The exceptions the embedded code raises, lets through or suppresses. *)
Inductive exn :=
| ValueError
| TypeError
| AttributeError
| NotFound
| HTTPException (status : Z)
| TimeoutError
| OverflowError.

(** ** bot/utils/messages.py *)

Module Messages.

(** A [str]: its code points. *)
Definition str := list Z.

(** Code points the source names. *)
Definition LATIN_c : Z := 99.
Definition LATIN_l : Z := 108.
Definition LATIN_y : Z := 121.
Definition LATIN_d : Z := 100.
Definition LATIN_e : Z := 101.
Definition CYRILLIC_SMALL_IE : Z := 1077.    (* U+0435 *)
Definition CYRILLIC_CAPITAL_IE : Z := 1045.  (* U+0415 *)

(** [re.I] on one letter of the pattern: for the ASCII letters c, l, y, d
    and e Unicode case folding adds nothing to the ASCII upper case. *)
Definition ieq (p x : Z) : bool := (x =? p) || (x =? p - 32).

(** [r"(clyd)(e)"] with [re.I], tried at the head of the text. *)
Definition match_clyde (s : str) : bool :=
  match s with
  | c :: l :: y :: d :: e :: _ =>
      ieq LATIN_c c && ieq LATIN_l l && ieq LATIN_y y && ieq LATIN_d d
      && ieq LATIN_e e
  | _ => false
  end.

(** The inner [replace_e], on group 2; group 1 is put back as matched. *)
Definition replace_e (e : Z) : Z :=
  if e =? LATIN_e then CYRILLIC_SMALL_IE else CYRILLIC_CAPITAL_IE.

(** [re.sub(r"(clyd)(e)", replace_e, username, flags=re.I)]: the text is
    scanned from the left; a match is replaced and the scan goes on behind
    it, any other character is copied. *)
Fixpoint re_sub_clyde (s : str) : str :=
  match s with
  | [] => []
  | c :: tl =>
      match tl with
      | l :: y :: d :: e :: rest =>
          if match_clyde s
          then c :: l :: y :: d :: replace_e e :: re_sub_clyde rest
          else c :: re_sub_clyde tl
      | _ => c :: re_sub_clyde tl
      end
  end.

(** [sub_clyde]: [None] and the empty string are falsy and returned as
    they are. *)
Definition sub_clyde (username : option str) : option str :=
  match username with
  | Some ((_ :: _) as u) => Some (re_sub_clyde u)
  | _ => username
  end.

(** An occurrence of "clyde", whatever the case, at index [i]. *)
Definition occurs_at (s : str) (i : nat) : bool := match_clyde (drop i s).

(** The text "clyde", in any mix of upper and lower case, stands at index
    [i] of [s]: c or C, then l or L, y or Y, d or D, e or E, each by its
    code point.  Written out without the matcher above. *)
Definition clyde_at (s : str) (i : nat) : Prop :=
  (s !! i = Some 99 \/ s !! i = Some 67)
  /\ (s !! (i + 1)%nat = Some 108 \/ s !! (i + 1)%nat = Some 76)
  /\ (s !! (i + 2)%nat = Some 121 \/ s !! (i + 2)%nat = Some 89)
  /\ (s !! (i + 3)%nat = Some 100 \/ s !! (i + 3)%nat = Some 68)
  /\ (s !! (i + 4)%nat = Some 101 \/ s !! (i + 4)%nat = Some 69).

(** Index [i] holds the fifth letter of an occurrence. *)
Definition replaced_at (s : str) (i : nat) : bool :=
  (4 <=? i)%nat && occurs_at s (i - 4).

(** *** Reactions *)

Record User := { user_id : Z; user_roles : list Z }.
Record Reaction := { reaction_message_id : Z; reaction_emoji : str }.
Record Message := { message_id : Z; message_guild : option Z }.

(** A reaction the helper asked the platform to take away again. *)
Definition removal : Type := Reaction * User.

(** A [reaction_add] event: seconds after the wait began, and its arguments. *)
Definition event : Type := Q * Reaction * User.

(** What the platform does during one run: its answer to
    [message.add_reaction] ([None]: done), the reactions users add, and its
    answer to [message.delete]. *)
Record Platform := {
  add_reaction : str -> option exn;
  reaction_events : list event;
  delete_message : option exn
}.

(** What a run leaves behind. *)
Record Effects := {
  attached : list str;
  removed : list removal;
  elapsed : Q;
  deleted : bool
}.

Inductive result := Return | Raise (e : exn).

(** [timeout: float = 60 * 5]. *)
Definition DEFAULT_TIMEOUT : Q := inject_Z (60 * 5).

Section Constants.

(** [bot.constants.MODERATION_ROLES] and [Emojis.trashcan] are not among
    the sources; [bot.instance.user] is the running bot's own account. *)
Variable MODERATION_ROLES : list Z.
Variable trashcan : str.
Variable bot_user : Z.

Definition reaction_check (reaction : Reaction) (user : User)
    (message_id : Z) (allowed_emoji : list str) (allowed_users : list Z)
    (allow_mods : bool) : bool * list removal :=
  let right_reaction :=
    negb (user_id user =? bot_user)
    && (reaction_message_id reaction =? message_id)
    && bool_decide (reaction_emoji reaction ∈ allowed_emoji) in
  if negb right_reaction then (false, [])
  else
    let is_moderator :=
      allow_mods
      && existsb (fun role => bool_decide (role ∈ MODERATION_ROLES))
           (user_roles user) in
    if bool_decide (user_id user ∈ allowed_users) || is_moderator
    then (true, [])
    else (false, [(reaction, user)]).

(** [bot.instance.wait_for('reaction_add', check=check, timeout=timeout)]:
    the events are offered to [check] as they arrive; the first one it
    accepts is returned, and [None] stands for [asyncio.TimeoutError], raised
    once [timeout] seconds have passed.  The second component is the time
    spent waiting, the third what [check] asked to be removed. *)
Fixpoint wait_for (check : Reaction -> User -> bool * list removal)
    (timeout : Q) (events : list event) : option event * Q * list removal :=
  match events with
  | [] => (None, timeout, [])
  | (t, reaction, user) :: later =>
      if Qle_bool t timeout then
        let '(ok, rm) := check reaction user in
        if ok then (Some (t, reaction, user), t, rm)
        else
          let '(found, waited, rm') := wait_for check timeout later in
          (found, waited, rm ++ rm')
      else (None, timeout, [])
  end.

(** No reaction that arrives within [timeout] is accepted by [check]. *)
Definition none_qualifies (check : Reaction -> User -> bool * list removal)
    (timeout : Q) (events : list event) : Prop :=
  Forall (fun ev : event =>
            Qle_bool ev.1.1 timeout = true -> (check ev.1.2 ev.2).1 = false)
    events.

(** The loop over [deletion_emojis]: [discord.NotFound] ends the helper,
    any other exception leaves it. *)
Fixpoint attach (P : Platform) (emojis : list str) : option result * list str :=
  match emojis with
  | [] => (None, [])
  | emoji :: more =>
      match add_reaction P emoji with
      | None => let '(r, done) := attach P more in (r, emoji :: done)
      | Some NotFound => (Some Return, [])
      | Some e => (Some (Raise e), [])
      end
  end.

Definition wait_for_deletion (P : Platform) (message : Message)
    (user_ids : list Z) (deletion_emojis : list str) (timeout : Q)
    (attach_emojis allow_mods : bool) : result * Effects :=
  match message_guild message with
  | None =>
      (Raise ValueError,
       {| attached := []; removed := []; elapsed := 0%Q; deleted := false |})
  | Some _ =>
      let '(stop, done) :=
        if attach_emojis then attach P deletion_emojis else (None, []) in
      match stop with
      | Some r =>
          (r, {| attached := done; removed := []; elapsed := 0%Q;
                 deleted := false |})
      | None =>
          let check reaction user :=
            reaction_check reaction user (message_id message)
              deletion_emojis user_ids allow_mods in
          (* with contextlib.suppress(asyncio.TimeoutError): *)
          match wait_for check timeout (reaction_events P) with
          | (None, waited, rm) =>
              (Return, {| attached := done; removed := rm; elapsed := waited;
                          deleted := false |})
          | (Some _, waited, rm) =>
              match delete_message P with
              | None =>
                  (Return, {| attached := done; removed := rm;
                              elapsed := waited; deleted := true |})
              | Some TimeoutError =>
                  (Return, {| attached := done; removed := rm;
                              elapsed := waited; deleted := false |})
              | Some e =>
                  (Raise e, {| attached := done; removed := rm;
                               elapsed := waited; deleted := false |})
              end
          end
      end
  end.

(** The call with every default taken. *)
Definition wait_for_deletion_default (P : Platform) (message : Message)
    (user_ids : list Z) : result * Effects :=
  wait_for_deletion P message user_ids [trashcan] DEFAULT_TIMEOUT true true.

End Constants.

(** *** Attachments *)

Record Attachment := { filename : str; url : str; size : Z }.

(** [message.author], as far as [send_attachments] reads it. *)
Record Author := { display_name : str; avatar_url : str }.

(** The destination: a [discord.TextChannel] or a [discord.Webhook], and
    [destination.guild.filesize_limit]. *)
Record Destination := { is_text_channel : bool; filesize_limit : Z }.

(** The keyword arguments [send] is given: [username] (absent, [None] or a
    [str]) and [avatar_url] (absent or a [str]). *)
Record Kwargs := {
  kw_username : option (option str);
  kw_avatar_url : option str
}.

(** What the platform answers for one attachment: to [attachment.save]
    ([None]: saved) and to [destination.send(file=...)] (the url of the
    first attachment of the message sent). *)
Record Upload := { save_answer : option exn; send_answer : exn + str }.

Inductive Payload :=
| File (attachment : Attachment)
| Embed (description : str).

(** A message [destination.send] delivered. *)
Record Delivery := { payload : Payload; kwargs_used : Kwargs }.

(** [except HTTPException as e]: [discord.NotFound] is an [HTTPException]
    of status 404; the other exceptions are not caught. *)
Definition http_status (e : exn) : option Z :=
  match e with
  | HTTPException status => Some status
  | NotFound => Some 404
  | _ => None
  end.

(** The dictionary [webhook_send_kwargs] after its [update] and after
    [sub_clyde] on its user name. *)
Definition webhook_send_kwargs (author : Author) (kwargs : Kwargs) : Kwargs :=
  let username := default (Some (display_name author)) (kw_username kwargs) in
  let avatar := default (avatar_url author) (kw_avatar_url kwargs) in
  {| kw_username := Some (sub_clyde username); kw_avatar_url := Some avatar |}.

(** [f"[{attachment.filename}]({attachment.url})"]. *)
Definition markdown_link (a : Attachment) : str :=
  [91] ++ filename a ++ [93; 40] ++ url a ++ [41].

(** ["\n".join(lines)]. *)
Fixpoint join_lines (lines : list str) : str :=
  match lines with
  | [] => []
  | [line] => line
  | line :: more => line ++ [10] ++ join_lines more
  end.

(** The lists [large] and [urls] of [send_attachments], and what has been
    delivered so far. *)
Record Progress := {
  large : list Attachment;
  urls : list str;
  delivered : list Delivery
}.

(** One turn of the loop over [message.attachments]; an exception that is
    not an [HTTPException] leaves the function. *)
Definition upload_one (destination : Destination) (link_large : bool)
    (kwargs webhook_kwargs : Kwargs) (attachment : Attachment) (up : Upload)
    (acc : Progress) : option exn * Progress :=
  let caught (e : exn) :=
    match http_status e with
    | Some status =>
        if link_large && (status =? 413)
        then (None, {| large := large acc ++ [attachment]; urls := urls acc;
                       delivered := delivered acc |})
        else (None, acc)
    | None => (Some e, acc)
    end in
  if size attachment <=? filesize_limit destination - 512 then
    match save_answer up with
    | Some e => caught e
    | None =>
        match send_answer up with
        | inl e => caught e
        | inr sent_url =>
            if is_text_channel destination
            then (None,
                  {| large := large acc; urls := urls acc ++ [sent_url];
                     delivered :=
                       delivered acc
                       ++ [{| payload := File attachment;
                              kwargs_used := kwargs |}] |})
            else (None,
                  {| large := large acc; urls := urls acc;
                     delivered :=
                       delivered acc
                       ++ [{| payload := File attachment;
                              kwargs_used := webhook_kwargs |}] |})
        end
    end
  else if link_large
  then (None, {| large := large acc ++ [attachment]; urls := urls acc;
                 delivered := delivered acc |})
  else (None, acc).

Fixpoint upload_all (destination : Destination) (link_large : bool)
    (kwargs webhook_kwargs : Kwargs) (uploads : list (Attachment * Upload))
    (acc : Progress) : option exn * Progress :=
  match uploads with
  | [] => (None, acc)
  | (attachment, up) :: more =>
      match upload_one destination link_large kwargs webhook_kwargs
              attachment up acc with
      | (Some e, acc') => (Some e, acc')
      | (None, acc') =>
          upload_all destination link_large kwargs webhook_kwargs more acc'
      end
  end.

(** [send_attachments]: [uploads] are the attachments of the message, each
    with the platform's answers for it, [embed_answer] is the answer to the
    closing [send(embed=...)].  The result is the list returned or the
    exception raised, and the messages delivered. *)
Definition send_attachments (author : Author)
    (uploads : list (Attachment * Upload)) (embed_answer : option exn)
    (destination : Destination) (link_large : bool) (kwargs : Kwargs)
    : (exn + list str) * list Delivery :=
  let webhook_kwargs := webhook_send_kwargs author kwargs in
  match upload_all destination link_large kwargs webhook_kwargs uploads
          {| large := []; urls := []; delivered := [] |} with
  | (Some e, acc) => (inl e, delivered acc)
  | (None, acc) =>
      match large acc with
      | _ :: _ =>
          if link_large then
            let desc := join_lines (markdown_link <$> large acc) in
            match embed_answer with
            | Some e => (inl e, delivered acc)
            | None =>
                (inr (urls acc),
                 delivered acc
                 ++ [{| payload := Embed desc;
                        kwargs_used :=
                          if is_text_channel destination then kwargs
                          else webhook_kwargs |}])
            end
          else (inr (urls acc), delivered acc)
      | [] => (inr (urls acc), delivered acc)
      end
  end.

(** A file delivered as the loop of [send_attachments] delivers one: it
    fits the limit, was saved and sent, and went out with the keyword
    arguments of the destination's kind. *)
Definition delivered_well (destination : Destination)
    (kwargs webhook_kwargs : Kwargs) (uploads : list (Attachment * Upload))
    (d : Delivery) : Prop :=
  exists attachment up sent_url,
    payload d = File attachment
    /\ (attachment, up) ∈ uploads
    /\ size attachment <= filesize_limit destination - 512
    /\ save_answer up = None
    /\ send_answer up = inr sent_url
    /\ kwargs_used d
       = if is_text_channel destination then kwargs else webhook_kwargs.

End Messages.

(** ** bot/utils/scheduling.py *)

Module Scheduler.

Section Tasks.

(** The coroutine a timer will run. *)
Context {C : Type}.

(** Modelled from the spec: the [Scheduler] class of bot/utils/scheduling.py
    is not among the sources.  The spec describes it as a set of named,
    cancellable deferred actions, each bound to a fire time, at most one per
    key: here a finite map from the key to the fire time and the action. *)
Definition empty : gmap Z (Z * C) := ∅.

(** Modelled from the spec: the membership test, whether [key] currently has
    a pending timer. *)
Definition contains (key : Z) (s : gmap Z (Z * C)) : bool :=
  bool_decide (is_Some (s !! key)).

(** Modelled from the spec: [schedule_at] registers the action to run at
    [time]; on a key that already has a pending timer there is no implicit
    overwrite. *)
Definition schedule_at (time : Z) (key : Z) (co : C) (s : gmap Z (Z * C))
    : gmap Z (Z * C) :=
  match s !! key with
  | Some _ => s
  | None => <[key := (time, co)]> s
  end.

(** Modelled from the spec: [cancel] removes the pending timer of [key] and
    does nothing when there is none. *)
Definition cancel (key : Z) (s : gmap Z (Z * C)) : gmap Z (Z * C) :=
  delete key s.

(** Modelled from the spec: [cancel_all] cancels every pending timer. *)
Definition cancel_all (s : gmap Z (Z * C)) : gmap Z (Z * C) := ∅.

(** Modelled from the spec: when its time is reached a timer leaves the
    pending set and its action is handed over to run, once. *)
Definition due (now : Z) (key : Z) (s : gmap Z (Z * C))
    : option (C * gmap Z (Z * C)) :=
  match s !! key with
  | Some (time, co) =>
      if time <=? now then Some (co, delete key s) else None
  | None => None
  end.

End Tasks.

End Scheduler.

(** ** bot/exts/moderation/modpings.py *)

Module ModPings.

(** *** Time *)

Definition MICROSECOND : Z := 1.
Definition SECOND : Z := 1000000.

(** [datetime.timedelta(days=, hours=, minutes=)]. *)
Definition timedelta (days hours minutes : Z) : Z :=
  ((days * 24 + hours) * 60 + minutes) * 60 * SECOND.

Definition MINIMUM_WORK_LIMIT : Z := 16.

(** A [datetime] as [dateutil.parser.parse] returns it: the wall-clock
    reading and, on an aware one, the offset of its [tzinfo] from UTC. *)
Record datetime := { wall : Z; utcoffset : option Z }.

(** [a < b]: an aware and a naive [datetime] do not compare. *)
Definition dt_lt (a b : datetime) : option bool :=
  match utcoffset a, utcoffset b with
  | None, None => Some (wall a <? wall b)
  | Some oa, Some ob => Some (wall a - oa <? wall b - ob)
  | _, _ => None
  end.

(** [a - b], a [timedelta]; the same restriction. *)
Definition dt_sub (a b : datetime) : option Z :=
  match utcoffset a, utcoffset b with
  | None, None => Some (wall a - wall b)
  | Some oa, Some ob => Some ((wall a - oa) - (wall b - ob))
  | _, _ => None
  end.

(** The first reading past [datetime.max], 9999-12-31 23:59:59.999999:
    [date.max.toordinal()] days. *)
Definition END_OF_TIME : Z := 3652059 * 24 * 60 * 60 * SECOND.

(** A reading a [datetime] can hold. *)
Definition representable (reading : Z) : bool :=
  (0 <=? reading) && (reading <? END_OF_TIME).

(** [a + d] for a [timedelta] [d]: the wall-clock reading moves, the
    [tzinfo] stays; a result outside [datetime.min .. datetime.max] raises
    [OverflowError]. *)
Definition dt_add (a : datetime) (d : Z) : exn + datetime :=
  if representable (wall a + d)
  then inr {| wall := wall a + d; utcoffset := utcoffset a |}
  else inl OverflowError.

(** [a.replace(tzinfo=None)], as a naive reading. *)
Definition replace_tzinfo_None (a : datetime) : Z := wall a.

(** *** Python objects as dictionary keys *)

Record Member := { id : Z }.

Inductive pyobj :=
| PyInt (n : Z)
| PyMember (m : Member).

(** [a == b]: a [Member] equals another account of the same id and nothing
    else ([isinstance(other, _BaseUser) and other.id == self.id]); an [int]
    equals an [int] of the same value. *)
Definition py_eq (a b : pyobj) : bool :=
  match a, b with
  | PyInt x, PyInt y => x =? y
  | PyMember x, PyMember y => id x =? id y
  | _, _ => false
  end.

(** [key in d] for the dictionary [to_dict] returns: its keys are the
    [int]s the cache was written with. *)
Definition dict_contains {V} (key : pyobj) (d : gmap Z V) : bool :=
  existsb (fun kv => py_eq key (PyInt kv.1)) (map_to_list d).

(** [for item in d]: iterating a dictionary yields its keys. *)
Definition dict_iter {V} (d : gmap Z V) : list pyobj :=
  (fun kv => PyInt kv.1) <$> map_to_list d.

(** [a, b = item]: neither an [int] nor a [Member] is iterable, so no
    binding comes back, only the [TypeError]. *)
Definition unpack2 (item : pyobj) : exn + Empty_set :=
  match item with
  | PyInt _ | PyMember _ => inl TypeError
  end.

(** *** The cog *)

(** The coroutines the cog hands to the scheduler or leaves asleep. *)
Inductive coroutine :=
| reapply_role_co (mod_ : Member)
| add_role_schedule_co (mod_ : Member) (work_time schedule_start : Z)
| remove_role_schedule_co (mod_ : Member) (work_time schedule_start : Z).

(** What [ctx.send] is given. *)
Inductive reply :=
| CannotRemoveLonger
| RemovedUntil (duration : Z)
| AlreadyHaveRole
| Reapplied
| MinimumWork (author : Member)
| Scheduled (author : Member) (start end_ : Z).

(** The cog with what it reads and writes: the clock, the members of the
    mod-team role, the ids of the holders of the moderators role, the two
    caches (an off-until value is the ISO text of a naive [datetime], kept
    as that [datetime]; a schedule is the text ["start|work"], kept as its
    two numbers, the timestamp of the start and the work time), the
    scheduler, the coroutines asleep in [asyncio.sleep]
    with their wake-up times, and the replies sent. *)
Record Cog := {
  utcnow : Z;
  mod_team : list Member;
  moderators : gset Z;
  pings_off_mods : gmap Z Z;
  modpings_schedule : gmap Z (Z * Z);
  role_scheduler : gmap Z (Z * coroutine);
  sleeping : list (Z * coroutine);
  sent : list reply
}.

Inductive outcome :=
| Returned (st : Cog)
| Raised (e : exn) (st : Cog).

(** Field updates. *)
Definition set_moderators (f : gset Z -> gset Z) (st : Cog) : Cog :=
  {| utcnow := utcnow st; mod_team := mod_team st;
     moderators := f (moderators st);
     pings_off_mods := pings_off_mods st;
     modpings_schedule := modpings_schedule st;
     role_scheduler := role_scheduler st; sleeping := sleeping st;
     sent := sent st |}.

Definition set_pings_off_mods (f : gmap Z Z -> gmap Z Z) (st : Cog) : Cog :=
  {| utcnow := utcnow st; mod_team := mod_team st;
     moderators := moderators st;
     pings_off_mods := f (pings_off_mods st);
     modpings_schedule := modpings_schedule st;
     role_scheduler := role_scheduler st; sleeping := sleeping st;
     sent := sent st |}.

Definition set_modpings_schedule
    (f : gmap Z (Z * Z) -> gmap Z (Z * Z)) (st : Cog) : Cog :=
  {| utcnow := utcnow st; mod_team := mod_team st;
     moderators := moderators st;
     pings_off_mods := pings_off_mods st;
     modpings_schedule := f (modpings_schedule st);
     role_scheduler := role_scheduler st; sleeping := sleeping st;
     sent := sent st |}.

Definition set_role_scheduler
    (f : gmap Z (Z * coroutine) -> gmap Z (Z * coroutine)) (st : Cog) : Cog :=
  {| utcnow := utcnow st; mod_team := mod_team st;
     moderators := moderators st;
     pings_off_mods := pings_off_mods st;
     modpings_schedule := modpings_schedule st;
     role_scheduler := f (role_scheduler st); sleeping := sleeping st;
     sent := sent st |}.

Definition set_sleeping
    (f : list (Z * coroutine) -> list (Z * coroutine)) (st : Cog) : Cog :=
  {| utcnow := utcnow st; mod_team := mod_team st;
     moderators := moderators st;
     pings_off_mods := pings_off_mods st;
     modpings_schedule := modpings_schedule st;
     role_scheduler := role_scheduler st; sleeping := f (sleeping st);
     sent := sent st |}.

Definition set_utcnow (t : Z) (st : Cog) : Cog :=
  {| utcnow := t; mod_team := mod_team st;
     moderators := moderators st;
     pings_off_mods := pings_off_mods st;
     modpings_schedule := modpings_schedule st;
     role_scheduler := role_scheduler st; sleeping := sleeping st;
     sent := sent st |}.

(** [await ctx.send(...)]. *)
Definition send (r : reply) (st : Cog) : Cog :=
  {| utcnow := utcnow st; mod_team := mod_team st;
     moderators := moderators st;
     pings_off_mods := pings_off_mods st;
     modpings_schedule := modpings_schedule st;
     role_scheduler := role_scheduler st; sleeping := sleeping st;
     sent := sent st ++ [r] |}.

(** [await mod.add_roles(self.moderators_role)] and [remove_roles]: the
    platform call is taken to succeed and to show at once in
    [moderators_role.members]. *)
Definition add_roles (mod_ : Member) : Cog -> Cog :=
  set_moderators (fun holders => {[id mod_]} ∪ holders).

Definition remove_roles (mod_ : Member) : Cog -> Cog :=
  set_moderators (fun holders => holders ∖ {[id mod_]}).

(** [mod in self.moderators_role.members]: membership in a list of
    [Member]s, decided by their ids. *)
Definition has_role (mod_ : Member) (holders : gset Z) : bool :=
  bool_decide (id mod_ ∈ holders).

(** [__init__]: a fresh scheduler; nothing is asleep or sent yet. *)
Definition init (clock : Z) (team : list Member) (holders : gset Z)
    (off : gmap Z Z) (shifts : gmap Z (Z * Z)) : Cog :=
  {| utcnow := clock; mod_team := team; moderators := holders;
     pings_off_mods := off; modpings_schedule := shifts;
     role_scheduler := Scheduler.empty; sleeping := []; sent := [] |}.

Definition reapply_role (mod_ : Member) (st : Cog) : Cog := add_roles mod_ st.

(** One turn of the loop of [reschedule_roles]; [pings_on] and [pings_off]
    were read before the loop. *)
Definition reschedule_roles_body (pings_on : gset Z) (pings_off : gmap Z Z)
    (st : Cog) (mod_ : Member) : Cog :=
  if has_role mod_ pings_on then
    if dict_contains (PyMember mod_) pings_off
    then set_pings_off_mods (delete (id mod_)) st
    else st
  else
    match pings_off !! id mod_ with
    | None => reapply_role mod_ st
    | Some expiry =>
        set_role_scheduler
          (Scheduler.schedule_at expiry (id mod_) (reapply_role_co mod_)) st
    end.

Definition reschedule_roles (st : Cog) : Cog :=
  let pings_on := moderators st in
  let pings_off := pings_off_mods st in
  foldl (reschedule_roles_body pings_on pings_off) st (mod_team st).

(** [reschedule_modpings_schedule].  Its loop, [for mod_id, schedule in
    schedule_cache], binds the two names to an item of the dictionary, which
    raises at the first item: lines 74 to 82 are never entered. *)
Definition reschedule_modpings_schedule (st : Cog) : outcome :=
  let schedule_cache := modpings_schedule st in
  match dict_iter schedule_cache with
  | [] => Returned st
  | item :: _ =>
      match unpack2 item with
      | inl e => Raised e st
      | inr bound => match bound with end
      end
  end.

Definition remove_role_schedule (mod_ : Member)
    (work_time schedule_start : Z) (st : Cog) : Cog :=
  let st := remove_roles mod_ st in
  let schedule_start := schedule_start + timedelta 0 0 1 in
  set_role_scheduler
    (Scheduler.schedule_at schedule_start (id mod_)
       (add_role_schedule_co mod_ work_time schedule_start)) st.

(** [add_role_schedule] up to its [asyncio.sleep(work_time)]: what follows
    the sleep is left asleep until [work_time] has passed. *)
Definition add_role_schedule (mod_ : Member)
    (work_time schedule_start : Z) (st : Cog) : Cog :=
  let st :=
    if dict_contains (PyMember mod_) (pings_off_mods st) then st
    else add_roles mod_ st in
  set_sleeping
    (fun asleep =>
       asleep ++ [(utcnow st + work_time,
                   remove_role_schedule_co mod_ work_time schedule_start)])
    st.

(** Running a coroutine until it ends or sleeps. *)
Definition run (co : coroutine) (st : Cog) : Cog :=
  match co with
  | reapply_role_co mod_ => reapply_role mod_ st
  | add_role_schedule_co mod_ work_time schedule_start =>
      add_role_schedule mod_ work_time schedule_start st
  | remove_role_schedule_co mod_ work_time schedule_start =>
      remove_role_schedule mod_ work_time schedule_start st
  end.

(** The event loop: the clock moves on, a timer whose time is reached
    fires, a sleeper whose time is reached wakes up. *)
Definition advance (t : Z) (st : Cog) : Cog := set_utcnow (Z.max t (utcnow st)) st.

Definition fire (key : Z) (st : Cog) : option Cog :=
  match Scheduler.due (utcnow st) key (role_scheduler st) with
  | Some (co, pending) => Some (run co (set_role_scheduler (fun _ => pending) st))
  | None => None
  end.

Definition wake (i : nat) (st : Cog) : option Cog :=
  match sleeping st !! i with
  | Some (time, co) =>
      if time <=? utcnow st
      then Some (run co (set_sleeping (delete i) st))
      else None
  | None => None
  end.

(** [modpings off <duration>]; the [Expiry] converter hands over a naive
    [datetime]. *)
Definition off_command (author : Member) (duration : Z) (st : Cog) : Cog :=
  let delta := duration - utcnow st in
  if timedelta 30 0 0 <? delta then send CannotRemoveLonger st
  else
    let mod_ := author in
    let st := remove_roles mod_ st in
    let st := set_pings_off_mods <[id mod_ := duration]> st in
    let st :=
      if Scheduler.contains (id mod_) (role_scheduler st)
      then set_role_scheduler (Scheduler.cancel (id mod_)) st
      else st in
    let st :=
      set_role_scheduler
        (Scheduler.schedule_at duration (id mod_) (reapply_role_co mod_)) st in
    send (RemovedUntil duration) st.

(** [modpings on]. *)
Definition on_command (author : Member) (st : Cog) : Cog :=
  let mod_ := author in
  if has_role mod_ (moderators st) then send AlreadyHaveRole st
  else
    let st := add_roles mod_ st in
    let st := set_pings_off_mods (delete (id mod_)) st in
    let st := set_role_scheduler (Scheduler.cancel (id mod_)) st in
    send Reapplied st.

(** [modpings schedule <start> <end>], from the two parsed arguments on.
    [timestamp] is [datetime.timestamp] on a naive [datetime], which reads
    the host's local time: its answer, microseconds since 1970-01-01 UTC, or
    the exception it raises for a reading it cannot convert. *)
Definition schedule_modpings (timestamp : Z -> exn + Z) (author : Member)
    (start end_ : datetime) (st : Cog) : outcome :=
  match dt_lt end_ start with
  | None => Raised TypeError st
  | Some earlier =>
      match (if earlier then dt_add end_ (timedelta 1 0 0) else inr end_) with
      | inl e => Raised e st
      | inr end_ =>
          match dt_sub end_ start with
          | None => Raised TypeError st
          | Some window =>
              if window <? timedelta 0 MINIMUM_WORK_LIMIT 0
              then Returned (send (MinimumWork author) st)
              else
                let start := replace_tzinfo_None start in
                let end_ := replace_tzinfo_None end_ in
                let work_time := end_ - start in
                match timestamp start with
                | inl e => Raised e st
                | inr stamp =>
                    let st :=
                      set_modpings_schedule
                        <[id author := (stamp, work_time)]> st in
                    let st :=
                      set_role_scheduler
                        (Scheduler.schedule_at start (id author)
                           (add_role_schedule_co author work_time start)) st in
                    Returned (send (Scheduled author start end_) st)
                end
          end
      end
  end.

(** Every pending timer re-applies the role of the moderator it is keyed
    by, at the expiry the off-until entries [off] hold for that moderator. *)
Definition timers_from (off : gmap Z Z) (st : Cog) : Prop :=
  forall key time co,
    role_scheduler st !! key = Some (time, co) ->
    off !! key = Some time /\ co = reapply_role_co {| id := key |}.

(** [cog_unload]. *)
Definition cog_unload (st : Cog) : Cog :=
  set_role_scheduler Scheduler.cancel_all st.

End ModPings.

(** ** Concrete inputs *)

Module Samples.

Import ModPings.

(** A moderator, a day [T] and a shift of twenty hours. *)
Definition alice : Member := {| id := 7 |}.
Definition T : Z := timedelta 1000 0 0.
Definition twenty_hours : Z := timedelta 0 20 0.

(** The cog an hour before [T]: alice is on the team and holds the role,
    nothing is stored or pending. *)
Definition quiet : Cog :=
  init (T - timedelta 0 1 0) [alice] {[ 7 ]} ∅ ∅.

(** The same an hour before [T] after a restart, with alice off until [T]
    and without the role. *)
Definition restarted : Cog :=
  init (T - timedelta 0 1 0) [alice] ∅ {[ 7 := T ]} ∅.

(** Alice holds the role although an off-until entry is left for her. *)
Definition stale : Cog :=
  init (T - timedelta 0 1 0) [alice] {[ 7 ]} {[ 7 := T ]} ∅.

(** At [T] alice is off until the next day, does not hold the role, and
    the timer of her shift is due. *)
Definition suppressed : Cog :=
  {| utcnow := T; mod_team := [alice]; moderators := ∅;
     pings_off_mods := {[ 7 := T + timedelta 1 0 0 ]};
     modpings_schedule := {[ 7 := (T, twenty_hours) ]};
     role_scheduler := {[ 7 := (T, add_role_schedule_co alice twenty_hours T) ]};
     sleeping := []; sent := [] |}.

(** A naive reading. *)
Definition naive (t : Z) : datetime := {| wall := t; utcoffset := None |}.

(** [datetime.timestamp] on a host whose local time is UTC: readings are
    counted from 1970-01-01, and one less than a day after [datetime.min] is
    refused with [ValueError] (the conversion looks a day back). *)
Definition utc_host (reading : Z) : exn + Z :=
  if reading <? timedelta 1 0 0 then inl ValueError
  else inr (reading - timedelta 719162 0 0).

(** Alice schedules a shift from [T] to twenty hours later; the timer
    fires at [T]; the sleeper wakes twenty hours later. *)
Definition scheduled : Cog :=
  match schedule_modpings utc_host alice (naive T) (naive (T + twenty_hours))
          quiet with
  | Returned st | Raised _ st => st
  end.
Definition on_duty : Cog := default scheduled (fire 7 (advance T scheduled)).
Definition off_duty : Cog :=
  default on_duty (wake 0 (advance (T + twenty_hours) on_duty)).

(** 10:00 at UTC and 20:00 at UTC-8 of the same calendar day. *)
Definition ten_utc : datetime :=
  {| wall := T + timedelta 0 10 0; utcoffset := Some 0 |}.
Definition twenty_pacific : datetime :=
  {| wall := T + timedelta 0 20 0; utcoffset := Some (- timedelta 0 8 0) |}.

(** A message in a guild, a trashcan reaction on it by a bystander after
    100 seconds and by its author after 400, on a platform that accepts
    every request. *)
Definition trashcan : Messages.str := [128465; 65039].
Definition note : Messages.Message :=
  {| Messages.message_id := 5; Messages.message_guild := Some 1 |}.
Definition on_note : Messages.Reaction :=
  {| Messages.reaction_message_id := 5; Messages.reaction_emoji := trashcan |}.
Definition bystander : Messages.User :=
  {| Messages.user_id := 8; Messages.user_roles := [] |}.
Definition poster : Messages.User :=
  {| Messages.user_id := 42; Messages.user_roles := [] |}.
Definition slow_platform : Messages.Platform :=
  {| Messages.add_reaction := fun _ => None;
     Messages.reaction_events :=
       [(inject_Z 100, on_note, bystander); (inject_Z 400, on_note, poster)];
     Messages.delete_message := None |}.

End Samples.

(** ** More concrete inputs *)

Module MoreSamples.

Import ModPings Samples.

(** The poster reacts to the note after 100 seconds, a bystander before. *)
Definition quick_platform : Messages.Platform :=
  {| Messages.add_reaction := fun _ => None;
     Messages.reaction_events :=
       [(inject_Z 30, on_note, bystander); (inject_Z 100, on_note, poster)];
     Messages.delete_message := None |}.

(** The note disappears after the first of two emoji was attached. *)
Definition cross : Messages.str := [10060].
Definition vanishing_platform : Messages.Platform :=
  {| Messages.add_reaction :=
       fun emoji => if bool_decide (emoji = cross) then Some NotFound else None;
     Messages.reaction_events := [(inject_Z 100, on_note, poster)];
     Messages.delete_message := None |}.

(** A text channel with a limit of 8 MiB, a small and a large file, and a
    platform answer that hands back a url. *)
Definition channel : Messages.Destination :=
  {| Messages.is_text_channel := true; Messages.filesize_limit := 8388608 |}.
Definition small_file : Messages.Attachment :=
  {| Messages.filename := [97]; Messages.url := [117; 49];
     Messages.size := 1000 |}.
Definition large_file : Messages.Attachment :=
  {| Messages.filename := [98]; Messages.url := [117; 50];
     Messages.size := 9000000 |}.
Definition answered (sent_url : Messages.str) : Messages.Upload :=
  {| Messages.save_answer := None; Messages.send_answer := inr sent_url |}.
Definition carol : Messages.Author :=
  {| Messages.display_name := [67; 108; 121; 100; 101];
     Messages.avatar_url := [] |}.
Definition no_kwargs : Messages.Kwargs :=
  {| Messages.kw_username := None; Messages.kw_avatar_url := None |}.

(** The user name "bob". *)
Definition bob : Messages.str := [98; 111; 98].

(** Alice's shift has ended and its sleeper is about to run. *)
Definition shift_over : Cog := advance (T + twenty_hours) on_duty.

End MoreSamples.

(** * Properties *)

(** ** [sub_clyde] *)

Section SubClyde.

Import Messages.

Lemma re_sub_clyde_unfold (s : str) :
  re_sub_clyde s =
  match s with
  | [] => []
  | c :: tl =>
      if match_clyde s
      then take 4 s ++ replace_e (nth 4 s 0) :: re_sub_clyde (drop 5 s)
      else c :: re_sub_clyde tl
  end.
Proof.
  destruct s as [|c [|l [|y [|d [|e rest]]]]]; reflexivity.
Qed.

Lemma match_clyde_shape (s : str) :
  match_clyde s = true ->
  exists c l y d e rest,
    s = c :: l :: y :: d :: e :: rest
    /\ ieq LATIN_c c = true /\ ieq LATIN_l l = true /\ ieq LATIN_y y = true
    /\ ieq LATIN_d d = true /\ ieq LATIN_e e = true.
Proof.
  destruct s as [|c [|l [|y [|d [|e rest]]]]]; try discriminate.
  cbn [match_clyde]. rewrite !andb_true_iff. intros [[[[? ?] ?] ?] ?].
  exists c, l, y, d, e, rest. auto 10.
Qed.

Lemma re_sub_clyde_length (s : str) : length (re_sub_clyde s) = length s.
Proof.
  remember (length s) as n eqn:Hn. revert s Hn.
  induction n as [n IH] using lt_wf_ind. intros s Hn.
  rewrite re_sub_clyde_unfold. destruct s as [|c tl]; [done|].
  destruct (match_clyde (c :: tl)) eqn:Hm.
  - apply match_clyde_shape in Hm as (c' & l & y & d & e & rest & Hs & _).
    rewrite Hs in *. cbn -[re_sub_clyde] in *.
    rewrite (IH (length rest)); [lia | lia | done].
  - cbn -[re_sub_clyde] in *. rewrite (IH (length tl)); [lia | lia | done].
Qed.

Lemma ieq_true (p x : Z) : ieq p x = true -> x = p \/ x = p - 32.
Proof. unfold ieq. rewrite orb_true_iff, !Z.eqb_eq. tauto. Qed.

Ltac ieq_cases :=
  repeat match goal with
    | H : ieq _ _ = true |- _ =>
        apply ieq_true in H; unfold LATIN_c, LATIN_l, LATIN_y, LATIN_d, LATIN_e in H;
        destruct H as [H | H]; subst
    end.

Lemma match_clyde_head (x : Z) (t : str) :
  ieq LATIN_c x = false -> match_clyde (x :: t) = false.
Proof.
  intros Hx. destruct t as [|l [|y [|d [|e rest]]]]; try reflexivity.
  cbn [match_clyde]. by rewrite Hx.
Qed.

(** No occurrence begins inside another one. *)
Lemma replaced_at_behind_match (c l y d e : Z) (rest : str) (j : nat) :
  match_clyde (c :: l :: y :: d :: e :: rest) = true ->
  replaced_at (c :: l :: y :: d :: e :: rest) (5 + j) = replaced_at rest j.
Proof.
  intros Hm. apply match_clyde_shape in Hm
    as (c' & l' & y' & d' & e' & rest' & Hs & Hc & Hl & Hy & Hd & He).
  injection Hs as <- <- <- <- <- <-.
  unfold replaced_at, occurs_at.
  destruct j as [|[|[|[|j]]]]; cbn [Nat.add Nat.sub Nat.leb andb drop];
    try (apply match_clyde_head; ieq_cases; reflexivity).
  by rewrite Nat.sub_0_r.
Qed.

Lemma replaced_at_behind_other (c : Z) (tl : str) (j : nat) :
  match_clyde (c :: tl) = false ->
  replaced_at (c :: tl) (S j) = replaced_at tl j.
Proof.
  intros Hm. unfold replaced_at, occurs_at.
  destruct j as [|[|[|[|j]]]]; cbn [Nat.add Nat.sub Nat.leb andb drop];
    try reflexivity; [exact Hm | by rewrite Nat.sub_0_r].
Qed.

(** Where [re.sub] writes: exactly at the fifth letter of each occurrence
    in its argument. *)
Lemma re_sub_clyde_lookup (s : str) (i : nat) :
  re_sub_clyde s !! i
  = if replaced_at s i then replace_e <$> s !! i else s !! i.
Proof.
  remember (length s) as n eqn:Hn. revert s i Hn.
  induction n as [n IH] using lt_wf_ind. intros s i Hn.
  rewrite re_sub_clyde_unfold. destruct s as [|c tl].
  - by destruct (replaced_at [] i).
  - destruct (match_clyde (c :: tl)) eqn:Hm.
    + pose proof Hm as Hm'. apply match_clyde_shape in Hm'
        as (c' & l & y & d & e & rest & Hs & _).
      injection Hs as <- ->. cbn [take nth drop app].
      destruct i as [|[|[|[|[|j]]]]]; try reflexivity.
      * unfold replaced_at, occurs_at. cbn [Nat.leb Nat.sub andb drop].
        rewrite Hm. reflexivity.
      * change (S (S (S (S (S j))))) with (5 + j)%nat.
        rewrite replaced_at_behind_match by exact Hm.
        cbn [Nat.add lookup list_lookup].
        apply (IH (length rest)); [cbn in Hn; lia | reflexivity].
    + destruct i as [|j].
      * reflexivity.
      * rewrite replaced_at_behind_other by exact Hm.
        cbn [lookup list_lookup].
        apply (IH (length tl)); [cbn in Hn; lia | reflexivity].
Qed.

Lemma replace_e_cyrillic (e : Z) :
  replace_e e = CYRILLIC_SMALL_IE \/ replace_e e = CYRILLIC_CAPITAL_IE.
Proof. unfold replace_e. destruct (e =? LATIN_e); auto. Qed.

(** A letter of the pattern found in the result stood there before. *)
Lemma re_sub_clyde_latin_kept (s : str) (j : nat) (p x : Z) :
  re_sub_clyde s !! j = Some x -> ieq p x = true ->
  p < 1000 -> s !! j = Some x.
Proof.
  rewrite re_sub_clyde_lookup. destruct (replaced_at s j); [|tauto].
  destruct (s !! j) as [y|]; [|discriminate]. cbn. intros [= <-] Hx Hp.
  apply ieq_true in Hx.
  destruct (replace_e_cyrillic y) as [Hy | Hy]; rewrite Hy in Hx;
    unfold CYRILLIC_SMALL_IE, CYRILLIC_CAPITAL_IE in Hx; lia.
Qed.

Lemma occurs_at_lookup (s : str) (i : nat) :
  occurs_at s i = true <->
  exists c l y d e,
    s !! i = Some c /\ s !! (i + 1)%nat = Some l /\ s !! (i + 2)%nat = Some y
    /\ s !! (i + 3)%nat = Some d /\ s !! (i + 4)%nat = Some e
    /\ ieq LATIN_c c = true /\ ieq LATIN_l l = true /\ ieq LATIN_y y = true
    /\ ieq LATIN_d d = true /\ ieq LATIN_e e = true.
Proof.
  unfold occurs_at. split.
  - intros Hm. apply match_clyde_shape in Hm
      as (c & l & y & d & e & rest & Hs & Hc & Hl & Hy & Hd & He).
    assert (Hk : forall k, s !! (i + k)%nat = (c :: l :: y :: d :: e :: rest) !! k)
      by (intros k; rewrite <- Hs; symmetry; apply lookup_drop).
    pose proof (Hk 0%nat) as H0. rewrite Nat.add_0_r in H0.
    exists c, l, y, d, e. rewrite H0, !Hk. auto 10.
  - intros (c & l & y & d & e & H0 & H1 & H2 & H3 & H4 & Hc & Hl & Hy & Hd & He).
    rewrite (drop_S _ _ _ H0).
    replace (S i) with (i + 1)%nat by lia. rewrite (drop_S _ _ _ H1).
    replace (S (i + 1)) with (i + 2)%nat by lia. rewrite (drop_S _ _ _ H2).
    replace (S (i + 2)) with (i + 3)%nat by lia. rewrite (drop_S _ _ _ H3).
    replace (S (i + 3)) with (i + 4)%nat by lia. rewrite (drop_S _ _ _ H4).
    cbn [match_clyde]. by rewrite Hc, Hl, Hy, Hd, He.
Qed.

Lemma re_sub_clyde_clean (s : str) (i : nat) :
  occurs_at (re_sub_clyde s) i = false.
Proof.
  destruct (occurs_at (re_sub_clyde s) i) eqn:Hocc; [exfalso | reflexivity].
  apply occurs_at_lookup in Hocc
    as (c & l & y & d & e & H0 & H1 & H2 & H3 & H4 & Hc & Hl & Hy & Hd & He).
  assert (Hs : occurs_at s i = true).
  { apply occurs_at_lookup. exists c, l, y, d, e.
    repeat split; try assumption;
      eapply re_sub_clyde_latin_kept; eauto; reflexivity. }
  rewrite re_sub_clyde_lookup in H4. unfold replaced_at in H4.
  replace (i + 4 - 4)%nat with i in H4 by lia. rewrite Hs in H4.
  replace (4 <=? i + 4)%nat with true in H4
    by (symmetry; apply Nat.leb_le; lia).
  cbn [andb] in H4. destruct (s !! (i + 4)%nat) as [x|]; [|discriminate].
  injection H4 as <-. apply ieq_true in He.
  destruct (replace_e_cyrillic x) as [Hx | Hx]; rewrite Hx in He;
    unfold CYRILLIC_SMALL_IE, CYRILLIC_CAPITAL_IE, LATIN_e in He; lia.
Qed.

(** The matcher finds an occurrence exactly where the text stands. *)
Lemma occurs_at_clyde_at (s : str) (i : nat) :
  occurs_at s i = true <-> clyde_at s i.
Proof.
  rewrite occurs_at_lookup. unfold clyde_at. split.
  - intros (c & l & y & d & e & H0 & H1 & H2 & H3 & H4 & Hc & Hl & Hy & Hd
            & He).
    rewrite H0, H1, H2, H3, H4.
    apply ieq_true in Hc, Hl, Hy, Hd, He.
    unfold LATIN_c, LATIN_l, LATIN_y, LATIN_d, LATIN_e in *.
    repeat split;
      match goal with
      | H : ?x = _ \/ ?x = _ |- Some ?x = _ \/ _ =>
          destruct H as [-> | ->]; [left | right]; reflexivity
      end.
  - intros (Hc & Hl & Hy & Hd & He).
    destruct (s !! i) as [c|]; [|by destruct Hc].
    destruct (s !! (i + 1)%nat) as [l|]; [|by destruct Hl].
    destruct (s !! (i + 2)%nat) as [y|]; [|by destruct Hy].
    destruct (s !! (i + 3)%nat) as [d|]; [|by destruct Hd].
    destruct (s !! (i + 4)%nat) as [e|]; [|by destruct He].
    exists c, l, y, d, e. repeat split; try reflexivity.
    + by destruct Hc as [[= ->] | [= ->]].
    + by destruct Hl as [[= ->] | [= ->]].
    + by destruct Hy as [[= ->] | [= ->]].
    + by destruct Hd as [[= ->] | [= ->]].
    + by destruct He as [[= ->] | [= ->]].
Qed.

(** C10.  [sub_clyde] returns [None] exactly on [None] and the empty
    string on the empty string; on a non-empty string it returns a string
    of the same length, in which, wherever "clyde" stood in any mix of
    cases, the Latin e (101) has become the Cyrillic U+0435 (1077) and the
    Latin E (69) the Cyrillic U+0415 (1045), every other position is as it
    was, and "clyde" stands nowhere in any mix of cases. *)
Theorem sub_clyde_replaces_every_clyde :
  (forall username : option str, sub_clyde username = None <-> username = None)
  /\ sub_clyde (Some []) = Some []
  /\ forall (c : Z) (s : str),
      exists r : str,
        sub_clyde (Some (c :: s)) = Some r
        /\ length r = length (c :: s)
        /\ (forall i, clyde_at (c :: s) i ->
              ((c :: s) !! (i + 4)%nat = Some 101
               /\ r !! (i + 4)%nat = Some 1077)
              \/ ((c :: s) !! (i + 4)%nat = Some 69
                  /\ r !! (i + 4)%nat = Some 1045))
        /\ (forall j, (j < 4)%nat \/ ~ clyde_at (c :: s) (j - 4) ->
              r !! j = (c :: s) !! j)
        /\ (forall i, ~ clyde_at r i).
Proof.
  split; [|split; [reflexivity|]].
  - intros [[|c s]|]; cbn; split; intros H; discriminate || reflexivity.
  - intros c s. exists (re_sub_clyde (c :: s)).
    split; [reflexivity|]. split; [apply re_sub_clyde_length|].
    split; [|split].
    + intros i Hocc%occurs_at_clyde_at. pose proof Hocc as Hocc'.
      apply occurs_at_lookup in Hocc'
        as (c0 & l & y & d & e & _ & _ & _ & _ & H4 & _ & _ & _ & _ & He).
      rewrite re_sub_clyde_lookup. unfold replaced_at.
      replace (i + 4 - 4)%nat with i by lia. rewrite Hocc.
      replace (4 <=? i + 4)%nat with true by (symmetry; apply Nat.leb_le; lia).
      cbn [andb]. rewrite H4. cbn.
      apply ieq_true in He as [-> | ->]; [left | right];
        (split; [exact H4 | reflexivity]).
    + intros j Hj. rewrite re_sub_clyde_lookup.
      replace (replaced_at (c :: s) j) with false; [reflexivity|].
      symmetry. unfold replaced_at. destruct Hj as [Hj | Hj].
      * replace (4 <=? j)%nat with false; [reflexivity|].
        symmetry. apply Nat.leb_gt. exact Hj.
      * apply andb_false_iff. right.
        destruct (occurs_at (c :: s) (j - 4)) eqn:Hocc; [|reflexivity].
        by apply occurs_at_clyde_at in Hocc.
    + intros i Hocc%occurs_at_clyde_at.
      by rewrite re_sub_clyde_clean in Hocc.
Qed.

End SubClyde.

(** ** [wait_for_deletion] *)

Section WaitForDeletion.

Import Messages.

Variable MODERATION_ROLES : list Z.
Variable bot_user : Z.

Lemma wait_for_times_out check timeout events :
  none_qualifies check timeout events ->
  exists rm, wait_for check timeout events = (None, timeout, rm).
Proof.
  induction 1 as [|[[t reaction] user] later Hev _ [rm IH]]; cbn.
  - by exists [].
  - destruct (Qle_bool t timeout) eqn:Ht; [|by exists []].
    cbn in Hev. specialize (Hev Ht).
    destruct (check reaction user) as [ok rm0]. cbn in Hev. subst ok.
    rewrite IH. by eexists.
Qed.

Lemma attach_all (P : Platform) (emojis : list str) :
  Forall (fun emoji => add_reaction P emoji = None) emojis ->
  attach P emojis = (None, emojis).
Proof.
  induction 1 as [|emoji more Hadd _ IH]; cbn; [done|].
  by rewrite Hadd, IH.
Qed.

Lemma attach_raises (P : Platform) (emojis : list str) (e : exn) :
  (attach P emojis).1 = Some (Raise e) ->
  exists emoji, emoji ∈ emojis /\ add_reaction P emoji = Some e.
Proof.
  induction emojis as [|emoji more IH]; cbn; [discriminate|].
  destruct (add_reaction P emoji) as [[]|] eqn:Hadd; cbn;
    try (intros [= <-]; exists emoji; split; [left | exact Hadd]);
    try discriminate.
  destruct (attach P more) as [r done]. cbn in *. intros Hr.
  destruct (IH Hr) as (em & Hin & Hem). exists em. split; [by right | done].
Qed.

(** C9.  When no reaction arriving within [timeout] seconds passes the
    check, [wait_for_deletion] does not delete the message, has waited no
    longer than [timeout], and raises nothing of its own making: an
    exception can only be the [ValueError] of a message outside a guild or
    one that [add_reaction] raised before the wait began; once the wait has
    begun (a guild message, reactions attached or not asked for) it returns
    normally after [timeout] seconds. *)
Theorem wait_for_deletion_times_out (P : Platform) (message : Message)
    (user_ids : list Z) (deletion_emojis : list str) (timeout : Q)
    (attach_emojis allow_mods : bool) :
  (0 <= timeout)%Q ->
  none_qualifies
    (fun reaction user =>
       reaction_check MODERATION_ROLES bot_user reaction user
         (message_id message) deletion_emojis user_ids allow_mods)
    timeout (reaction_events P) ->
  let run :=
    wait_for_deletion MODERATION_ROLES bot_user P message user_ids
      deletion_emojis timeout attach_emojis allow_mods in
  deleted run.2 = false
  /\ (elapsed run.2 <= timeout)%Q
  /\ (forall e, run.1 = Raise e ->
        (e = ValueError /\ message_guild message = None)
        \/ (attach_emojis = true
            /\ exists emoji, emoji ∈ deletion_emojis
                            /\ add_reaction P emoji = Some e))
  /\ (message_guild message <> None ->
      (attach_emojis = true ->
       Forall (fun emoji => add_reaction P emoji = None) deletion_emojis) ->
      run.1 = Return /\ elapsed run.2 = timeout).
Proof.
  intros Hpos Hnone run. subst run. unfold wait_for_deletion.
  destruct (wait_for_times_out _ _ _ Hnone) as [rm Hwait].
  destruct (message_guild message) as [guild|].
  2:{ cbn. repeat split; try done.
      intros e [= <-]. by left. }
  destruct attach_emojis.
  - destruct (attach P deletion_emojis) as [stop done] eqn:Hatt.
    destruct stop as [r|].
    + cbn. split; [done|]. split; [done|]. split.
      * intros e ->. right. split; [done|].
        apply attach_raises. by rewrite Hatt.
      * intros _ Hall. rewrite (attach_all _ _ (Hall eq_refl)) in Hatt.
        discriminate.
    + rewrite Hwait. cbn. repeat split; try done. apply Qle_refl.
  - rewrite Hwait. cbn. repeat split; try done. apply Qle_refl.
Qed.

End WaitForDeletion.

(** ** The [off] and [on] commands *)

Section Commands.

Import ModPings.

Lemma not_elem_of_remove (x : Z) (holders : gset Z) : x ∉ holders ∖ {[x]}.
Proof.
  intros [_ Hx]%elem_of_difference. apply Hx. by apply elem_of_singleton.
Qed.

Lemma elem_of_add (x : Z) (holders : gset Z) : x ∈ ({[x]} ∪ holders : gset Z).
Proof. apply elem_of_union_l. by apply elem_of_singleton. Qed.

(** C3.  A duration more than 30 days ahead of the clock: [off] sends its
    refusal and does nothing else, so the off-until cache, the pending
    timers and the holders of the role are as they were. *)
Theorem off_command_rejects_long (author : Member) (duration : Z) (st : Cog) :
  timedelta 30 0 0 < duration - utcnow st ->
  let st' := off_command author duration st in
  st' = send CannotRemoveLonger st
  /\ pings_off_mods st' = pings_off_mods st
  /\ role_scheduler st' = role_scheduler st
  /\ moderators st' = moderators st.
Proof.
  intros Hlong. cbn zeta. unfold off_command.
  apply Z.ltb_lt in Hlong. rewrite Hlong. auto.
Qed.

(** C4.  An accepted [off] followed at once by [on]: the moderator has no
    off-until entry and no pending timer, and holds the role. *)
Theorem off_then_on (author : Member) (duration : Z) (st : Cog) :
  duration - utcnow st <= timedelta 30 0 0 ->
  let st' := on_command author (off_command author duration st) in
  pings_off_mods st' !! id author = None
  /\ role_scheduler st' !! id author = None
  /\ id author ∈ moderators st'.
Proof.
  intros Hok. cbn zeta. unfold off_command.
  replace (timedelta 30 0 0 <? duration - utcnow st) with false
    by (symmetry; apply Z.ltb_ge; exact Hok).
  unfold on_command.
  set (st1 := set_pings_off_mods _ (remove_roles author st)).
  set (st2 := if Scheduler.contains _ _ then _ else st1).
  assert (Hholders : moderators st2 = moderators st ∖ {[id author]}).
  { subst st2. by destruct (Scheduler.contains _ _). }
  cbn [send moderators set_role_scheduler]. unfold has_role.
  rewrite Hholders, bool_decide_eq_false_2 by apply not_elem_of_remove.
  cbn. unfold Scheduler.cancel. rewrite !lookup_delete_eq.
  split; [done|]. split; [done|]. apply elem_of_add.
Qed.

End Commands.

(** ** Dictionary lookups with a [Member] as the key *)

Section Dictionaries.

Import ModPings.

Context {V : Type}.

(** A [Member] is never found among [int] keys. *)
Lemma dict_contains_member (m : Member) (d : gmap Z V) :
  dict_contains (PyMember m) d = false.
Proof.
  unfold dict_contains. induction (map_to_list d) as [|kv l IH]; [done|].
  cbn. exact IH.
Qed.

(** The id is found exactly when it has an entry. *)
Lemma dict_contains_id (k : Z) (d : gmap Z V) :
  dict_contains (PyInt k) d = true <-> is_Some (d !! k).
Proof.
  unfold dict_contains. rewrite existsb_exists. split.
  - intros ([k' v] & Hin & Heq). cbn in Heq. apply Z.eqb_eq in Heq as <-.
    apply list_elem_of_In, elem_of_map_to_list in Hin. by exists v.
  - intros [v Hv]. exists (k, v). split; [|cbn; apply Z.eqb_refl].
    by apply list_elem_of_In, elem_of_map_to_list.
Qed.

Lemma dict_iter_nil (d : gmap Z V) : dict_iter d = [] <-> d = ∅.
Proof.
  unfold dict_iter. rewrite <- map_to_list_empty_iff. split.
  - apply fmap_nil_inv.
  - by intros ->.
Qed.

Lemma dict_iter_ints (d : gmap Z V) (item : pyobj) :
  item ∈ dict_iter d -> exists k, item = PyInt k.
Proof.
  unfold dict_iter. intros ([k v] & -> & _)%list_elem_of_fmap. by exists k.
Qed.

End Dictionaries.

(** ** Reconciliation at startup *)

Section Reconciliation.

Import ModPings.

(** What [reschedule_modpings_schedule] does, by cases on its cache. *)
Lemma reschedule_modpings_schedule_cases (st : Cog) :
  reschedule_modpings_schedule st
  = if decide (modpings_schedule st = ∅) then Returned st
    else Raised TypeError st.
Proof.
  unfold reschedule_modpings_schedule. cbn zeta.
  destruct (dict_iter (modpings_schedule st)) as [|item items] eqn:Hiter.
  - apply dict_iter_nil in Hiter. by rewrite decide_True.
  - rewrite decide_False.
    + assert (Hin : item ∈ dict_iter (modpings_schedule st))
        by (rewrite Hiter; left).
      apply dict_iter_ints in Hin as [k ->]. reflexivity.
    + intros Hempty%dict_iter_nil. by rewrite Hempty in Hiter.
Qed.

(** C2 (what the code does).  With any entry in the shift-schedule cache,
    [reschedule_modpings_schedule] raises [TypeError] at the first item of
    its loop and leaves the cog as it was: no timer is armed. *)
Theorem reschedule_modpings_schedule_raises (st : Cog) (mod_id : Z)
    (schedule : Z * Z) :
  let st' :=
    set_modpings_schedule (fun cache => <[mod_id := schedule]> cache) st in
  reschedule_modpings_schedule st' = Raised TypeError st'
  /\ role_scheduler st' = role_scheduler st.
Proof.
  cbn zeta. split; [|reflexivity].
  rewrite reschedule_modpings_schedule_cases, decide_False; [done|].
  cbn. apply insert_non_empty.
Qed.

Section Loop.

Variable pings_on : gset Z.
Variable pings_off : gmap Z Z.

Let body := reschedule_roles_body pings_on pings_off.

Lemma body_pings_off_mods (st : Cog) (mod_ : Member) :
  pings_off_mods (body st mod_) = pings_off_mods st.
Proof.
  unfold body, reschedule_roles_body.
  rewrite dict_contains_member.
  destruct (has_role mod_ pings_on); [done|].
  by destruct (pings_off !! id mod_).
Qed.

Lemma loop_pings_off_mods (team : list Member) (st : Cog) :
  pings_off_mods (foldl body st team) = pings_off_mods st.
Proof.
  revert st. induction team as [|mod_ team IH]; intros st; [done|].
  cbn. by rewrite IH, body_pings_off_mods.
Qed.

Lemma body_timers_from (st : Cog) (mod_ : Member) :
  timers_from pings_off st -> timers_from pings_off (body st mod_).
Proof.
  intros Hinv. unfold body, reschedule_roles_body.
  rewrite dict_contains_member.
  destruct (has_role mod_ pings_on); [done|].
  destruct (pings_off !! id mod_) as [expiry|] eqn:Hoff; [|done].
  intros key time co. cbn. unfold Scheduler.schedule_at.
  destruct (role_scheduler st !! id mod_) eqn:Hold; [apply Hinv|].
  destruct (decide (key = id mod_)) as [->|Hne].
  - rewrite lookup_insert_eq. intros [= <- <-]. by destruct mod_.
  - rewrite lookup_insert_ne by done. apply Hinv.
Qed.

Lemma body_timer_kept (st : Cog) (mod_ : Member) key timer :
  role_scheduler st !! key = Some timer ->
  role_scheduler (body st mod_) !! key = Some timer.
Proof.
  intros Hkey. unfold body, reschedule_roles_body.
  rewrite dict_contains_member.
  destruct (has_role mod_ pings_on); [done|].
  destruct (pings_off !! id mod_) as [expiry|]; [|done].
  cbn. unfold Scheduler.schedule_at.
  destruct (role_scheduler st !! id mod_) eqn:Hold; [done|].
  rewrite lookup_insert_ne; [done|]. intros <-. congruence.
Qed.

Lemma body_holders_mono (st : Cog) (mod_ : Member) x :
  x ∈ moderators st -> x ∈ moderators (body st mod_).
Proof.
  intros Hx. unfold body, reschedule_roles_body.
  rewrite dict_contains_member.
  destruct (has_role mod_ pings_on); [done|].
  destruct (pings_off !! id mod_) as [expiry|]; [done|].
  cbn. by apply elem_of_union_r.
Qed.

Lemma body_holders_new (st : Cog) (mod_ : Member) x :
  x ∈ moderators (body st mod_) ->
  x ∈ moderators st \/ pings_off !! x = None.
Proof.
  unfold body, reschedule_roles_body.
  rewrite dict_contains_member.
  destruct (has_role mod_ pings_on); [by left|].
  destruct (pings_off !! id mod_) as [expiry|] eqn:Hoff; [by left|].
  cbn. intros [->%elem_of_singleton | Hx]%elem_of_union; [by right | by left].
Qed.

Lemma body_applies (st : Cog) (mod_ : Member) :
  id mod_ ∉ pings_on -> pings_off !! id mod_ = None ->
  id mod_ ∈ moderators (body st mod_).
Proof.
  intros Hon Hoff. unfold body, reschedule_roles_body, has_role.
  rewrite bool_decide_eq_false_2, Hoff by done. cbn.
  apply elem_of_union_l. by apply elem_of_singleton.
Qed.

Lemma body_arms (st : Cog) (mod_ : Member) expiry :
  id mod_ ∉ pings_on -> pings_off !! id mod_ = Some expiry ->
  timers_from pings_off st ->
  role_scheduler (body st mod_) !! id mod_
  = Some (expiry, reapply_role_co mod_).
Proof.
  intros Hon Hoff Hinv. unfold body, reschedule_roles_body, has_role.
  rewrite bool_decide_eq_false_2, Hoff by done. cbn.
  unfold Scheduler.schedule_at.
  destruct (role_scheduler st !! id mod_) as [[time co]|] eqn:Hold.
  - destruct (Hinv _ _ _ Hold) as [Htime ->]. rewrite Hold.
    destruct mod_. cbn in *. congruence.
  - apply lookup_insert_eq.
Qed.

Lemma loop_timers_from (team : list Member) (st : Cog) :
  timers_from pings_off st -> timers_from pings_off (foldl body st team).
Proof.
  revert st. induction team as [|mod_ team IH]; intros st Hinv; [done|].
  cbn. by apply IH, body_timers_from.
Qed.

Lemma loop_timer_kept (team : list Member) (st : Cog) key timer :
  role_scheduler st !! key = Some timer ->
  role_scheduler (foldl body st team) !! key = Some timer.
Proof.
  revert st. induction team as [|mod_ team IH]; intros st Hkey; [done|].
  cbn. by apply IH, body_timer_kept.
Qed.

Lemma loop_holders_mono (team : list Member) (st : Cog) x :
  x ∈ moderators st -> x ∈ moderators (foldl body st team).
Proof.
  revert st. induction team as [|mod_ team IH]; intros st Hx; [done|].
  cbn. by apply IH, body_holders_mono.
Qed.

Lemma loop_holders_new (team : list Member) (st : Cog) x :
  x ∈ moderators (foldl body st team) ->
  x ∈ moderators st \/ pings_off !! x = None.
Proof.
  revert st. induction team as [|mod_ team IH]; intros st; [by left|].
  cbn. intros [Hx | Hx]%IH; [|by right]. by apply body_holders_new in Hx.
Qed.

Lemma loop_applies (team : list Member) (st : Cog) (mod_ : Member) :
  mod_ ∈ team -> id mod_ ∉ pings_on -> pings_off !! id mod_ = None ->
  id mod_ ∈ moderators (foldl body st team).
Proof.
  intros Hin Hon Hoff. revert st.
  induction Hin as [mod_ team | mod_ other team _ IH]; intros st; cbn.
  - by apply loop_holders_mono, body_applies.
  - apply IH; done.
Qed.

Lemma loop_arms (team : list Member) (st : Cog) (mod_ : Member) expiry :
  mod_ ∈ team -> id mod_ ∉ pings_on -> pings_off !! id mod_ = Some expiry ->
  timers_from pings_off st ->
  role_scheduler (foldl body st team) !! id mod_
  = Some (expiry, reapply_role_co mod_).
Proof.
  intros Hin Hon Hoff. revert st.
  induction Hin as [mod_ team | mod_ other team _ IH]; intros st Hinv; cbn.
  - by apply loop_timer_kept, body_arms.
  - apply IH; [done | done | by apply body_timers_from].
Qed.

End Loop.

(** C6 (what the code does).  [reschedule_roles] never deletes an
    off-until entry: the test [mod in pings_off] asks for a [Member] among
    the ids and finds none, so the cache ends as it began. *)
Theorem reschedule_roles_keeps_pings_off_mods (st : Cog) :
  pings_off_mods (reschedule_roles st) = pings_off_mods st.
Proof. unfold reschedule_roles. cbn zeta. apply loop_pings_off_mods. Qed.

(** C7.  At startup (a fresh scheduler), for a member of the mod team who
    does not hold the role: without an off-until entry the role is applied
    by the end of [reschedule_roles]; with one, a timer keyed by the
    member's id is pending at the stored expiry, to re-apply the role, and
    the role has not been applied. *)
Theorem reschedule_roles_lacking_role (clock : Z) (team : list Member)
    (holders : gset Z) (off : gmap Z Z) (shifts : gmap Z (Z * Z))
    (mod_ : Member) :
  mod_ ∈ team ->
  id mod_ ∉ holders ->
  let st' := reschedule_roles (init clock team holders off shifts) in
  match off !! id mod_ with
  | None => id mod_ ∈ moderators st'
  | Some expiry =>
      role_scheduler st' !! id mod_ = Some (expiry, reapply_role_co mod_)
      /\ id mod_ ∉ moderators st'
  end.
Proof.
  intros Hin Hon. cbn zeta. unfold reschedule_roles. cbn zeta.
  cbn [init moderators pings_off_mods mod_team].
  destruct (off !! id mod_) as [expiry|] eqn:Hoff.
  - split.
    + apply loop_arms; done.
    + intros [Hx | Hx]%loop_holders_new; [by apply Hon | congruence].
  - by apply loop_applies.
Qed.

End Reconciliation.

(** ** The shift cycle *)

Section ShiftCycle.

Import ModPings.

(** C8 (what the code does).  [add_role_schedule] applies the role even
    when the moderator has an off-until entry: its test asks for the
    [Member] among the ids of the cache and finds none. *)
Theorem add_role_schedule_applies_role (mod_ : Member)
    (work_time schedule_start expiry : Z) (st : Cog) :
  let off := set_pings_off_mods (fun cache => <[id mod_ := expiry]> cache) st in
  let st' := add_role_schedule mod_ work_time schedule_start off in
  pings_off_mods st' !! id mod_ = Some expiry
  /\ id mod_ ∈ moderators st'.
Proof.
  cbn zeta. unfold add_role_schedule. rewrite dict_contains_member. cbn.
  split; [apply lookup_insert_eq | apply elem_of_add].
Qed.

(** C1 (what the code does).  A shift that begins (its timer fires) at the
    clock's [utcnow] leaves [remove_role_schedule] asleep until [work_time]
    later; when that runs, with no other timer pending for the moderator,
    the role is removed and the next [add_role_schedule] is armed one
    minute after the previous start: the work time is not added. *)
Theorem shift_end_rearms (mod_ : Member) (work_time schedule_start : Z)
    (st : Cog) :
  role_scheduler st !! id mod_ = None ->
  sleeping (run (add_role_schedule_co mod_ work_time schedule_start) st)
  = sleeping st
    ++ [(utcnow st + work_time,
         remove_role_schedule_co mod_ work_time schedule_start)]
  /\ (let st' :=
        run (remove_role_schedule_co mod_ work_time schedule_start) st in
      (id mod_ ∉ moderators st')
      /\ role_scheduler st' !! id mod_
         = Some (schedule_start + timedelta 0 0 1,
                 add_role_schedule_co mod_ work_time
                   (schedule_start + timedelta 0 0 1))).
Proof.
  intros Hfree. split.
  - cbn. unfold add_role_schedule. rewrite dict_contains_member. reflexivity.
  - cbn. split; [apply not_elem_of_remove|].
    unfold Scheduler.schedule_at. rewrite Hfree. apply lookup_insert_eq.
Qed.







End ShiftCycle.

(** ** Worked instances *)

Section Instances.

Import ModPings Samples.

(** C9 at the defaults: a bystander reacts after 100 seconds, the poster
    only after 400; the helper returns after 300 seconds without deleting. *)
Lemma wait_for_deletion_times_out_witness :
  (0 <= Messages.DEFAULT_TIMEOUT)%Q
  /\ Messages.none_qualifies
       (fun reaction user =>
          Messages.reaction_check [10] 1 reaction user 5 [trashcan] [42] true)
       Messages.DEFAULT_TIMEOUT (Messages.reaction_events slow_platform)
  /\ (let run :=
        Messages.wait_for_deletion_default [10] trashcan 1 slow_platform
          note [42] in
      run.1 = Messages.Return
      /\ Messages.deleted run.2 = false
      /\ Messages.elapsed run.2 = Messages.DEFAULT_TIMEOUT).
Proof.
  assert (Hpos : (0 <= Messages.DEFAULT_TIMEOUT)%Q) by (vm_compute; discriminate).
  assert (Hnone : Messages.none_qualifies
            (fun reaction user =>
               Messages.reaction_check [10] 1 reaction user 5 [trashcan] [42]
                 true)
            Messages.DEFAULT_TIMEOUT (Messages.reaction_events slow_platform)).
  { repeat constructor; vm_compute; intros; first [reflexivity | discriminate]. }
  split; [exact Hpos|]. split; [exact Hnone|].
  destruct (wait_for_deletion_times_out [10] 1 slow_platform note [42]
              [trashcan] Messages.DEFAULT_TIMEOUT true true Hpos Hnone)
    as (Hdel & _ & _ & Hret).
  destruct Hret as [Hres Htime]; [discriminate | by repeat constructor |].
  exact (conj Hres (conj Hdel Htime)).
Defined.

(** C3 at an [off] for forty days. *)
Lemma off_command_rejects_long_witness :
  timedelta 30 0 0 < (T + timedelta 40 0 0) - utcnow quiet
  /\ off_command alice (T + timedelta 40 0 0) quiet
     = send CannotRemoveLonger quiet.
Proof.
  assert (Hlong : timedelta 30 0 0 < (T + timedelta 40 0 0) - utcnow quiet)
    by (vm_compute; reflexivity).
  exact (conj Hlong
           (proj1 (off_command_rejects_long alice (T + timedelta 40 0 0)
                     quiet Hlong))).
Defined.

(** C4 at an [off] until [T], an hour ahead. *)
Lemma off_then_on_witness :
  T - utcnow quiet <= timedelta 30 0 0
  /\ (let st' := on_command alice (off_command alice T quiet) in
      pings_off_mods st' !! 7 = None
      /\ role_scheduler st' !! 7 = None
      /\ 7 ∈ moderators st').
Proof.
  assert (Hok : T - utcnow quiet <= timedelta 30 0 0)
    by (vm_compute; discriminate).
  exact (conj Hok (off_then_on alice T quiet Hok)).
Defined.

(** C7 after a restart while alice is off until [T]. *)
Lemma reschedule_roles_lacking_role_witness :
  alice ∈ [alice]
  /\ (7 ∉ (∅ : gset Z))
  /\ role_scheduler (reschedule_roles restarted) !! 7
     = Some (T, reapply_role_co alice)
  /\ 7 ∉ moderators (reschedule_roles restarted).
Proof.
  assert (Hin : alice ∈ [alice]) by left.
  assert (Hon : id alice ∉ (∅ : gset Z)) by apply not_elem_of_empty.
  exact (conj Hin (conj Hon
           (reschedule_roles_lacking_role (T - timedelta 0 1 0) [alice] ∅
              {[ 7 := T ]} ∅ alice Hin Hon))).
Defined.

(** C1 at the end of alice's first shift. *)
Lemma shift_end_rearms_witness :
  role_scheduler on_duty !! 7 = None
  /\ role_scheduler (run (remove_role_schedule_co alice twenty_hours T) on_duty)
       !! 7
     = Some (T + timedelta 0 0 1,
             add_role_schedule_co alice twenty_hours (T + timedelta 0 0 1)).
Proof.
  assert (Hfree : role_scheduler on_duty !! id alice = None)
    by (vm_compute; reflexivity).
  exact (conj Hfree
           (proj2 (proj2 (shift_end_rearms alice twenty_hours T on_duty Hfree)))).
Defined.

(** C1 on alice's shift, scheduled from [T] for twenty hours and begun at
    [T]: when it ends twenty hours later the role is removed and the next
    timer is armed at [T] plus one minute, not at [T] plus twenty hours plus
    one minute. *)
Lemma shift_end_rearms_counterexample :
  fire 7 (advance T scheduled) = Some on_duty
  /\ sleeping on_duty
     = [(T + twenty_hours, remove_role_schedule_co alice twenty_hours T)]
  /\ wake 0 (advance (T + twenty_hours) on_duty) = Some off_duty
  /\ has_role alice (moderators off_duty) = false
  /\ fst <$> role_scheduler off_duty !! 7 = Some (T + timedelta 0 0 1)
  /\ fst <$> role_scheduler off_duty !! 7
     <> Some (T + twenty_hours + timedelta 0 0 1).
Proof.
  repeat split; try (vm_compute; reflexivity).
  vm_compute. discriminate.
Qed.


(** C5 (what the code does).  From 10:00 at UTC to 20:00 at UTC-8 the
    window checked is 18 hours, which passes the test of 16 hours, and the
    work time stored is 10 hours. *)
Lemma schedule_modpings_stores_less_than_checked :
  dt_lt twenty_pacific ten_utc = Some false
  /\ dt_sub twenty_pacific ten_utc = Some (timedelta 0 18 0)
  /\ exists st',
       schedule_modpings utc_host alice ten_utc twenty_pacific quiet
       = Returned st'
       /\ snd <$> modpings_schedule st' !! 7 = Some (timedelta 0 10 0)
       /\ snd <$> modpings_schedule st' !! 7 <> Some (timedelta 0 18 0).
Proof.
  split; [reflexivity|]. split; [reflexivity|].
  eexists. split; [reflexivity|]. split.
  - vm_compute. reflexivity.
  - vm_compute. discriminate.
Qed.

(** C2 at one stored shift: the reconciliation raises and arms nothing. *)
Example reschedule_modpings_schedule_one_shift :
  let st := init T [alice] ∅ ∅ {[ 7 := (T, twenty_hours) ]} in
  reschedule_modpings_schedule st = Raised TypeError st
  /\ role_scheduler st !! 7 = None.
Proof. split; vm_compute; reflexivity. Qed.

(** C6 at a stale entry: alice holds the role and keeps her entry. *)
Example reschedule_roles_stale_entry :
  has_role alice (moderators stale) = true
  /\ pings_off_mods stale !! 7 = Some T
  /\ pings_off_mods (reschedule_roles stale) !! 7 = Some T.
Proof. repeat split; vm_compute; reflexivity. Qed.

(** C8 at a suppressed moderator: the shift timer fires and the role is
    applied although the off-until entry runs for another day. *)
Example add_role_schedule_suppressed :
  pings_off_mods suppressed !! 7 = Some (T + timedelta 1 0 0)
  /\ has_role alice (moderators suppressed) = false
  /\ (has_role alice <$> (moderators <$> fire 7 suppressed)) = Some true.
Proof. repeat split; vm_compute; reflexivity. Qed.

(** [sub_clyde] on "ClYdE!clyde". *)
Example sub_clyde_mixed :
  Messages.sub_clyde
    (Some [67; 108; 89; 100; 69; 33; 99; 108; 121; 100; 101])
  = Some [67; 108; 89; 100; 1045; 33; 99; 108; 121; 100; 1077].
Proof. reflexivity. Qed.

End Instances.

(** * Further properties *)

(** ** [reaction_check] *)

Section ReactionCheck.

Import Messages.

Variable MODERATION_ROLES : list Z.
Variable bot_user : Z.

Lemma is_moderator_true (user : User) :
  existsb (fun role => bool_decide (role ∈ MODERATION_ROLES)) (user_roles user)
  = true
  <-> exists role, role ∈ user_roles user /\ role ∈ MODERATION_ROLES.
Proof.
  rewrite existsb_exists. split.
  - intros (role & Hin & Hmod). exists role. split.
    + by apply list_elem_of_In.
    + by apply bool_decide_eq_true in Hmod.
  - intros (role & Hin & Hmod). exists role. split.
    + by apply list_elem_of_In.
    + by apply bool_decide_eq_true.
Qed.

(** X1.  [reaction_check] accepts a reaction exactly when it is not the
    bot's own, is on the message asked for, carries one of the allowed
    emoji, and comes from an allowed user or, with [allow_mods], from a
    user holding one of the moderation roles. *)
Theorem reaction_check_accepts (reaction : Reaction) (user : User)
    (message_id : Z) (allowed_emoji : list str) (allowed_users : list Z)
    (allow_mods : bool) :
  (reaction_check MODERATION_ROLES bot_user reaction user message_id
     allowed_emoji allowed_users allow_mods).1 = true
  <-> user_id user <> bot_user
      /\ reaction_message_id reaction = message_id
      /\ reaction_emoji reaction ∈ allowed_emoji
      /\ (user_id user ∈ allowed_users
          \/ (allow_mods = true
              /\ exists role,
                  role ∈ user_roles user /\ role ∈ MODERATION_ROLES)).
Proof.
  unfold reaction_check.
  destruct (Z.eqb_spec (user_id user) bot_user) as [Hbot | Hbot];
    [cbn; split; [discriminate | tauto]|].
  destruct (Z.eqb_spec (reaction_message_id reaction) message_id)
    as [Hmsg | Hmsg]; [|cbn; split; [discriminate | tauto]].
  destruct (bool_decide_reflect (reaction_emoji reaction ∈ allowed_emoji))
    as [Hemoji | Hemoji]; [|cbn; split; [discriminate | tauto]].
  cbn [negb andb].
  destruct (bool_decide_reflect (user_id user ∈ allowed_users))
    as [Hallowed | Hallowed]; [cbn; tauto|].
  cbn [orb]. destruct allow_mods; cbn [andb].
  - destruct (existsb _ (user_roles user)) eqn:Hmod; cbn.
    + apply is_moderator_true in Hmod. tauto.
    + split; [discriminate|]. intros (_ & _ & _ & [? | [_ Hrole]]); [done|].
      apply is_moderator_true in Hrole. congruence.
  - cbn. split; [discriminate|].
    intros (_ & _ & _ & [? | [? _]]); done.
Qed.

(** X2.  [reaction_check] asks for a reaction to be removed only when it is
    the reaction just checked, is not the bot's own, is on the message
    asked for with an allowed emoji, and comes from a user outside
    [allowed_users]; an accepted reaction is never removed. *)
Theorem reaction_check_removes (reaction : Reaction) (user : User)
    (message_id : Z) (allowed_emoji : list str) (allowed_users : list Z)
    (allow_mods : bool) :
  let checked :=
    reaction_check MODERATION_ROLES bot_user reaction user message_id
      allowed_emoji allowed_users allow_mods in
  (checked.1 = true -> checked.2 = [])
  /\ forall gone : removal,
      gone ∈ checked.2 ->
      gone = (reaction, user)
      /\ checked.1 = false
      /\ user_id user <> bot_user
      /\ reaction_message_id reaction = message_id
      /\ reaction_emoji reaction ∈ allowed_emoji
      /\ user_id user ∉ allowed_users.
Proof.
  cbn zeta. unfold reaction_check.
  destruct (Z.eqb_spec (user_id user) bot_user) as [Hbot | Hbot];
    [cbn; split; [done | intros ? []%elem_of_nil]|].
  destruct (Z.eqb_spec (reaction_message_id reaction) message_id)
    as [Hmsg | Hmsg]; [|cbn; split; [done | intros ? []%elem_of_nil]].
  destruct (bool_decide_reflect (reaction_emoji reaction ∈ allowed_emoji))
    as [Hemoji | Hemoji]; [|cbn; split; [done | intros ? []%elem_of_nil]].
  cbn [negb andb].
  destruct (bool_decide_reflect (user_id user ∈ allowed_users))
    as [Hallowed | Hallowed]; [cbn; split; [done | intros ? []%elem_of_nil]|].
  cbn [orb].
  destruct (allow_mods && existsb _ (user_roles user)); cbn.
  - split; [done | intros ? []%elem_of_nil].
  - split; [discriminate|]. intros gone ->%list_elem_of_singleton. done.
Qed.

End ReactionCheck.

(** ** [wait_for_deletion], further *)

Section WaitForDeletionFurther.

Import Messages.

Variable MODERATION_ROLES : list Z.
Variable bot_user : Z.

Lemma wait_for_found check timeout (events : list event) (ev : event)
    waited rm :
  wait_for check timeout events = (Some ev, waited, rm) ->
  ev ∈ events
  /\ Qle_bool ev.1.1 timeout = true
  /\ (check ev.1.2 ev.2).1 = true
  /\ waited = ev.1.1.
Proof.
  revert rm. induction events as [|[[t reaction] user] later IH]; cbn;
    intros rm; [discriminate|].
  destruct (Qle_bool t timeout) eqn:Ht; [|discriminate].
  destruct (check reaction user) as [ok rm0] eqn:Hcheck. destruct ok.
  - intros [= <- <- <-]. cbn. rewrite Hcheck. repeat split; [left | done].
  - destruct (wait_for check timeout later) as [[found waited'] rm'].
    intros [= -> -> <-].
    destruct (IH _ eq_refl) as (Hin & Hrest). split; [by right | exact Hrest].
Qed.

Lemma wait_for_first check timeout (before : list event) (ev : event)
    (after : list event) :
  Forall (fun e : event =>
            Qle_bool e.1.1 timeout = true /\ (check e.1.2 e.2).1 = false)
    before ->
  Qle_bool ev.1.1 timeout = true ->
  (check ev.1.2 ev.2).1 = true ->
  exists rm, wait_for check timeout (before ++ ev :: after)
             = (Some ev, ev.1.1, rm).
Proof.
  intros Hbefore Hin Hok.
  induction Hbefore as [|[[t reaction] user] before [Ht Hno] _ [rm IH]]; cbn.
  - destruct ev as [[t reaction] user]. cbn in *. rewrite Hin.
    destruct (check reaction user) as [ok rm0]. cbn in Hok. subst ok.
    by eexists.
  - cbn in Ht, Hno. rewrite Ht.
    destruct (check reaction user) as [ok rm0]. cbn in Hno. subst ok.
    rewrite IH. by eexists.
Qed.

(** X3.  [wait_for_deletion] deletes the message only on request: when the
    message ends up deleted, some reaction that [reaction_check] accepts
    arrived within [timeout] seconds, the helper waited until it arrived,
    and it returned normally. *)
Theorem wait_for_deletion_deletes_on_request (P : Platform)
    (message : Message) (user_ids : list Z) (deletion_emojis : list str)
    (timeout : Q) (attach_emojis allow_mods : bool) :
  let run :=
    wait_for_deletion MODERATION_ROLES bot_user P message user_ids
      deletion_emojis timeout attach_emojis allow_mods in
  deleted run.2 = true ->
  run.1 = Return
  /\ exists ev : event,
      ev ∈ reaction_events P
      /\ Qle_bool ev.1.1 timeout = true
      /\ (reaction_check MODERATION_ROLES bot_user ev.1.2 ev.2
            (message_id message) deletion_emojis user_ids allow_mods).1 = true
      /\ elapsed run.2 = ev.1.1.
Proof.
  cbn zeta. unfold wait_for_deletion.
  destruct (message_guild message) as [guild|]; [|discriminate].
  destruct (if attach_emojis then attach P deletion_emojis else (None, []))
    as [[r|] done]; [discriminate|].
  destruct (wait_for _ timeout (reaction_events P)) as [[[ev|] waited] rm]
    eqn:Hwait; [|discriminate].
  apply wait_for_found in Hwait as (Hin & Ht & Hok & ->).
  destruct (delete_message P) as [[]|]; cbn; try discriminate.
  intros _. split; [done|]. by exists ev.
Qed.

(** X4.  Once the wait has begun (a guild message, every emoji attached or
    none asked for), the first reaction in time that [reaction_check]
    accepts has the message deleted at its arrival, when the platform
    carries the deletion out. *)
Theorem wait_for_deletion_deletes (P : Platform) (message : Message)
    (user_ids : list Z) (deletion_emojis : list str) (timeout : Q)
    (attach_emojis allow_mods : bool) (before after : list event)
    (ev : event) :
  message_guild message <> None ->
  (attach_emojis = true ->
   Forall (fun emoji => add_reaction P emoji = None) deletion_emojis) ->
  reaction_events P = before ++ ev :: after ->
  Forall (fun e : event =>
            Qle_bool e.1.1 timeout = true
            /\ (reaction_check MODERATION_ROLES bot_user e.1.2 e.2
                  (message_id message) deletion_emojis user_ids allow_mods).1
               = false)
    before ->
  Qle_bool ev.1.1 timeout = true ->
  (reaction_check MODERATION_ROLES bot_user ev.1.2 ev.2 (message_id message)
     deletion_emojis user_ids allow_mods).1 = true ->
  delete_message P = None ->
  let run :=
    wait_for_deletion MODERATION_ROLES bot_user P message user_ids
      deletion_emojis timeout attach_emojis allow_mods in
  run.1 = Return /\ deleted run.2 = true /\ elapsed run.2 = ev.1.1.
Proof.
  intros Hguild Hattach Hevents Hbefore Hin Hok Hdel. cbn zeta.
  unfold wait_for_deletion.
  destruct (message_guild message) as [guild|]; [|done].
  assert (Hstop : (if attach_emojis then attach P deletion_emojis
                   else (None, [])).1 = None).
  { destruct attach_emojis; [|done].
    by rewrite (attach_all _ _ (Hattach eq_refl)). }
  destruct (if attach_emojis then attach P deletion_emojis else (None, []))
    as [stop done]. cbn in Hstop. subst stop.
  destruct (wait_for_first
              (fun reaction user =>
                 reaction_check MODERATION_ROLES bot_user reaction user
                   (message_id message) deletion_emojis user_ids allow_mods)
              timeout before ev after Hbefore Hin Hok)
    as [rm Hwait].
  cbv zeta. rewrite Hevents, Hwait, Hdel. done.
Qed.

(** X5.  When the message is gone while the emoji are being attached
    ([discord.NotFound]), [wait_for_deletion] returns at once: the emoji
    before the failing one stay attached, and nothing is waited for,
    removed or deleted. *)
Theorem wait_for_deletion_message_gone (P : Platform) (message : Message)
    (user_ids : list Z) (before after : list str) (emoji : str)
    (timeout : Q) (allow_mods : bool) :
  message_guild message <> None ->
  Forall (fun e => add_reaction P e = None) before ->
  add_reaction P emoji = Some NotFound ->
  wait_for_deletion MODERATION_ROLES bot_user P message user_ids
    (before ++ emoji :: after) timeout true allow_mods
  = (Return,
     {| attached := before; removed := []; elapsed := 0%Q;
        deleted := false |}).
Proof.
  intros Hguild Hbefore Hgone. unfold wait_for_deletion.
  destruct (message_guild message) as [guild|]; [|done].
  assert (Hattach : attach P (before ++ emoji :: after) = (Some Return, before)).
  { induction Hbefore as [|e before He _ IH]; cbn.
    - by rewrite Hgone.
    - by rewrite He, IH. }
  by rewrite Hattach.
Qed.

End WaitForDeletionFurther.

(** ** [sub_clyde], further *)

Section SubClydeFurther.

Import Messages.

Lemma re_sub_clyde_fixes_clean (s : str) :
  (forall i, occurs_at s i = false) -> re_sub_clyde s = s.
Proof.
  intros Hclean. apply list_eq. intros i. rewrite re_sub_clyde_lookup.
  unfold replaced_at. rewrite Hclean. by rewrite andb_false_r.
Qed.

Lemma sub_clyde_clean (username : option str) (s : str) (i : nat) :
  sub_clyde username = Some s -> occurs_at s i = false.
Proof.
  destruct username as [[|c u]|]; unfold sub_clyde; [| |discriminate].
  - intros [= <-]. unfold occurs_at. by rewrite drop_nil.
  - intros Hs. assert (s = re_sub_clyde (c :: u)) as -> by congruence.
    apply re_sub_clyde_clean.
Qed.

(** X6.  [sub_clyde] returns a user name without any "clyde" as it is. *)
Theorem sub_clyde_keeps_clean (s : str) :
  (forall i, occurs_at s i = false) -> sub_clyde (Some s) = Some s.
Proof.
  intros Hclean. destruct s as [|c s]; [reflexivity|].
  unfold sub_clyde. by rewrite re_sub_clyde_fixes_clean.
Qed.

(** X7.  [sub_clyde] is idempotent: applied to its own result it changes
    nothing. *)
Theorem sub_clyde_idempotent (username : option str) :
  sub_clyde (sub_clyde username) = sub_clyde username.
Proof.
  destruct (sub_clyde username) as [s|] eqn:Hsub; [|reflexivity].
  destruct s as [|c s]; [reflexivity|]. unfold sub_clyde at 1.
  rewrite re_sub_clyde_fixes_clean; [reflexivity|].
  intros i. exact (sub_clyde_clean _ _ i Hsub).
Qed.

End SubClydeFurther.

(** ** [send_attachments] *)

Section SendAttachments.

Import Messages.

Variable destination : Destination.
Variable link_large : bool.
Variable kwargs webhook_kwargs : Kwargs.

Let step := upload_one destination link_large kwargs webhook_kwargs.
Let loop := upload_all destination link_large kwargs webhook_kwargs.

(** What holds of the progress before the loop and is kept by every turn
    holds after the loop, however it ends. *)
Lemma upload_all_invariant (I : Progress -> Prop)
    (uploads : list (Attachment * Upload)) (acc : Progress) :
  I acc ->
  (forall attachment up acc',
     (attachment, up) ∈ uploads -> I acc' -> I (step attachment up acc').2) ->
  I (loop uploads acc).2.
Proof.
  revert acc. induction uploads as [|[attachment up] more IH];
    intros acc Hacc Hstep; [exact Hacc|].
  cbn. pose proof (Hstep attachment up acc ltac:(left) Hacc) as Hnext.
  fold (step attachment up acc).
  destruct (step attachment up acc) as [[e|] acc']; [exact Hnext|].
  apply IH; [exact Hnext|]. intros a u acc'' Hin. apply Hstep. by right.
Qed.

(** An exception that leaves the loop was raised for one of the
    attachments and is no [HTTPException]. *)
Lemma upload_all_raises (uploads : list (Attachment * Upload))
    (acc : Progress) (e : exn) :
  (loop uploads acc).1 = Some e ->
  http_status e = None
  /\ exists attachment up,
      (attachment, up) ∈ uploads
      /\ (save_answer up = Some e \/ send_answer up = inl e).
Proof.
  revert acc. induction uploads as [|[attachment up] more IH];
    intros acc; cbn; [discriminate|].
  destruct (upload_one destination link_large kwargs webhook_kwargs
              attachment up acc) as [[e'|] acc'] eqn:Hone.
  - cbn. intros [= ->]. unfold upload_one in Hone.
    assert (Hcaught : forall e0 r,
      match http_status e0 with
      | Some status =>
          if link_large && (status =? 413)
          then (None, {| large := large acc ++ [attachment];
                         urls := urls acc; delivered := delivered acc |})
          else (None, acc)
      | None => (Some e0, acc)
      end = (Some e, r) -> e0 = e /\ http_status e = None).
    { intros e0 r. destruct (http_status e0) eqn:Hs.
      - destruct (link_large && _); discriminate.
      - intros [= -> _]. done. }
    destruct (size attachment <=? filesize_limit destination - 512).
    + destruct (save_answer up) as [e0|] eqn:Hsave.
      * apply Hcaught in Hone as [-> Hs]. split; [done|].
        exists attachment, up. split; [left | by left].
      * destruct (send_answer up) as [e0|sent_url] eqn:Hsend.
        -- apply Hcaught in Hone as [-> Hs]. split; [done|].
           exists attachment, up. split; [left | by right].
        -- destruct (is_text_channel destination); discriminate.
    + destruct link_large; discriminate.
  - intros Hrest. destruct (IH _ Hrest) as (Hs & a & u & Hin & Hwhy).
    split; [done|]. exists a, u. split; [by right | done].
Qed.

Ltac upload_cases :=
  unfold upload_one;
  repeat match goal with
    | |- context [if ?b then _ else _] => destruct b eqn:?
    | |- context [match ?x with _ => _ end] => destruct x eqn:?
    end;
  cbn [snd fst large urls delivered].

(** On a webhook no url is collected. *)
Lemma upload_all_webhook_urls (uploads : list (Attachment * Upload))
    (acc : Progress) :
  is_text_channel destination = false -> urls acc = [] ->
  urls (loop uploads acc).2 = [].
Proof.
  intros Hhook Hacc. apply upload_all_invariant; [exact Hacc|].
  intros attachment up acc' _ Hacc'. unfold step, upload_one. rewrite Hhook.
  upload_cases; try exact Hacc'; congruence.
Qed.

Lemma upload_all_delivered (uploads : list (Attachment * Upload)) :
  Forall (delivered_well destination kwargs webhook_kwargs uploads)
    (delivered (loop uploads {| large := []; urls := []; delivered := [] |}).2).
Proof.
  apply (upload_all_invariant
           (fun acc =>
              Forall (delivered_well destination kwargs webhook_kwargs uploads)
                (delivered acc)));
    [constructor|].
  intros attachment up acc' Hin Hacc'. unfold step.
  unfold upload_one.
  destruct (size attachment <=? filesize_limit destination - 512) eqn:Hsize.
  2:{ destruct link_large; exact Hacc'. }
  apply Z.leb_le in Hsize.
  assert (Hcaught : forall e,
    Forall (delivered_well destination kwargs webhook_kwargs uploads)
      (delivered
         (match http_status e with
          | Some status =>
              if link_large && (status =? 413)
              then (None, {| large := large acc' ++ [attachment];
                             urls := urls acc'; delivered := delivered acc' |})
              else (None, acc')
          | None => (Some e, acc')
          end).2)).
  { intros e. destruct (http_status e); [destruct (link_large && _)|];
      exact Hacc'. }
  destruct (save_answer up) as [e|] eqn:Hsave; [apply Hcaught|].
  destruct (send_answer up) as [e|sent_url] eqn:Hsend; [apply Hcaught|].
  destruct (is_text_channel destination) eqn:Hkind; cbn;
    (apply Forall_app; split; [exact Hacc'|]); apply Forall_singleton;
    exists attachment, up, sent_url; cbn; rewrite Hkind; auto 10.
Qed.

(** Attachments enter [large] only with [link_large]. *)
Lemma upload_all_large (uploads : list (Attachment * Upload))
    (acc : Progress) :
  link_large = false -> large acc = [] -> large (loop uploads acc).2 = [].
Proof.
  intros Hlink Hacc. apply upload_all_invariant; [exact Hacc|].
  intros attachment up acc' _ Hacc'. unfold step, upload_one. rewrite Hlink.
  upload_cases; first [exact Hacc' | cbn in *; discriminate].
Qed.

End SendAttachments.

Section SendAttachmentsResults.

Import Messages.

Variable author : Author.
Variable uploads : list (Attachment * Upload).
Variable embed_answer : option exn.
Variable link_large : bool.
Variable kwargs : Kwargs.

(** X8.  To a webhook [send_attachments] returns no url, whatever was
    uploaded: only a text channel's messages are read back. *)
Theorem send_attachments_webhook_urls (limit : Z) :
  match (send_attachments author uploads embed_answer
           {| is_text_channel := false; filesize_limit := limit |}
           link_large kwargs).1 with
  | inr returned => returned = []
  | inl _ => True
  end.
Proof.
  unfold send_attachments. cbn zeta.
  pose proof (upload_all_webhook_urls
                {| is_text_channel := false; filesize_limit := limit |}
                link_large kwargs (webhook_send_kwargs author kwargs) uploads
                {| large := []; urls := []; delivered := [] |}
                eq_refl eq_refl) as Hurls.
  destruct (upload_all _ _ _ _ uploads _) as [[e|] acc]; [done|].
  cbn in Hurls.
  destruct (large acc); [done|].
  destruct link_large; [|done]. by destruct embed_answer.
Qed.

(** X9.  Every message [send_attachments] delivers to a webhook carries a
    user name that went through [sub_clyde]: the one among the keyword
    arguments if there is one, else the author's display name; when it is
    a string, no "clyde" in any case is left in it. *)
Theorem send_attachments_webhook_username (limit : Z) :
  Forall (fun d : Delivery =>
            kw_username (kwargs_used d)
            = Some (sub_clyde (default (Some (display_name author))
                                 (kw_username kwargs)))
            /\ forall (name : str) (i : nat),
                kw_username (kwargs_used d) = Some (Some name) ->
                occurs_at name i = false)
    (send_attachments author uploads embed_answer
       {| is_text_channel := false; filesize_limit := limit |}
       link_large kwargs).2.
Proof.
  assert (Hclean : forall d : Delivery,
    kwargs_used d = webhook_send_kwargs author kwargs ->
    kw_username (kwargs_used d)
    = Some (sub_clyde (default (Some (display_name author))
                         (kw_username kwargs)))
    /\ forall (name : str) (i : nat),
        kw_username (kwargs_used d) = Some (Some name) ->
        occurs_at name i = false).
  { intros d ->. split; [reflexivity|]. cbn. intros name i [= Hname].
    exact (sub_clyde_clean _ _ i Hname). }
  unfold send_attachments. cbn zeta.
  pose proof (upload_all_delivered
                {| is_text_channel := false; filesize_limit := limit |}
                link_large kwargs (webhook_send_kwargs author kwargs) uploads)
    as Hdel.
  assert (Hfiles : forall acc : Progress,
    Forall (delivered_well
              {| is_text_channel := false; filesize_limit := limit |}
              kwargs (webhook_send_kwargs author kwargs) uploads)
      (delivered acc) ->
    Forall (fun d : Delivery =>
              kw_username (kwargs_used d)
              = Some (sub_clyde (default (Some (display_name author))
                                   (kw_username kwargs)))
              /\ forall (name : str) (i : nat),
                  kw_username (kwargs_used d) = Some (Some name) ->
                  occurs_at name i = false)
      (delivered acc)).
  { intros acc Hacc. eapply Forall_impl; [exact Hacc|].
    intros d (a & up & u & _ & _ & _ & _ & _ & Hkw). by apply Hclean. }
  destruct (upload_all _ _ _ _ uploads _) as [[e|] acc]; cbn in Hdel;
    [by apply Hfiles|].
  destruct (large acc); [by apply Hfiles|].
  destruct link_large; [|by apply Hfiles].
  destruct embed_answer; cbn; [by apply Hfiles|].
  apply Forall_app. split; [by apply Hfiles|].
  apply Forall_singleton. by apply Hclean.
Qed.

(** X10.  What [send_attachments] delivers is a run of uploaded files,
    each within 512 bytes below the guild's limit and saved and sent
    without an exception, followed by at most one embed, which is sent only
    with [link_large] and only if the platform accepts it. *)
Theorem send_attachments_deliveries (destination : Destination) :
  let webhook_kwargs := webhook_send_kwargs author kwargs in
  exists files tail,
    (send_attachments author uploads embed_answer destination link_large
       kwargs).2 = files ++ tail
    /\ Forall (delivered_well destination kwargs webhook_kwargs uploads) files
    /\ (tail = []
        \/ (link_large = true /\ embed_answer = None
            /\ exists description,
                tail = [{| payload := Embed description;
                           kwargs_used :=
                             if is_text_channel destination then kwargs
                             else webhook_kwargs |}])).
Proof.
  cbn zeta. unfold send_attachments. cbn zeta.
  pose proof (upload_all_delivered destination link_large kwargs
                (webhook_send_kwargs author kwargs) uploads) as Hdel.
  destruct (upload_all _ _ _ _ uploads _) as [[e|] acc]; cbn in Hdel.
  { exists (delivered acc), []. rewrite app_nil_r. auto. }
  destruct (large acc).
  { exists (delivered acc), []. rewrite app_nil_r. auto. }
  destruct link_large.
  2:{ exists (delivered acc), []. rewrite app_nil_r. auto. }
  destruct embed_answer; cbn.
  { exists (delivered acc), []. rewrite app_nil_r. auto. }
  eexists (delivered acc), _. split; [reflexivity|]. split; [done|].
  right. eauto.
Qed.

(** X11.  An [HTTPException] met while saving or sending an attachment
    never leaves [send_attachments]: an exception it raises is either one
    of another kind raised for some attachment, or the one the closing
    embed was refused with. *)
Theorem send_attachments_raises (destination : Destination) :
  match (send_attachments author uploads embed_answer destination link_large
           kwargs).1 with
  | inl e =>
      (http_status e = None
       /\ exists attachment up,
           (attachment, up) ∈ uploads
           /\ (save_answer up = Some e \/ send_answer up = inl e))
      \/ (link_large = true /\ embed_answer = Some e)
  | inr _ => True
  end.
Proof.
  unfold send_attachments. cbn zeta.
  pose proof (upload_all_raises destination link_large kwargs
                (webhook_send_kwargs author kwargs) uploads
                {| large := []; urls := []; delivered := [] |}) as Hraise.
  destruct (upload_all _ _ _ _ uploads _) as [[e|] acc]; cbn in *.
  { left. by apply Hraise. }
  destruct (large acc); [done|].
  destruct link_large; [|done].
  destruct embed_answer; cbn; [by right | done].
Qed.

(** X12.  To a text channel, when every attachment is within the limit and
    is saved and sent without an exception, [send_attachments] delivers one
    message per attachment, in order, with the caller's keyword arguments,
    sends no embed, and returns the urls the platform gave, in order. *)
Theorem send_attachments_all_sent (limit : Z) (sent_urls : list str) :
  Forall2 (fun (au : Attachment * Upload) (sent_url : str) =>
             size au.1 <= limit - 512
             /\ save_answer au.2 = None
             /\ send_answer au.2 = inr sent_url)
    uploads sent_urls ->
  send_attachments author uploads embed_answer
    {| is_text_channel := true; filesize_limit := limit |} link_large kwargs
  = (inr sent_urls,
     (fun au : Attachment * Upload =>
        {| payload := File au.1; kwargs_used := kwargs |}) <$> uploads).
Proof.
  intros Hall. unfold send_attachments. cbn zeta.
  assert (Hloop : forall acc,
    upload_all {| is_text_channel := true; filesize_limit := limit |}
      link_large kwargs (webhook_send_kwargs author kwargs) uploads acc
    = (None,
       {| large := large acc; urls := urls acc ++ sent_urls;
          delivered :=
            delivered acc
            ++ ((fun au : Attachment * Upload =>
                   {| payload := File au.1; kwargs_used := kwargs |})
                  <$> uploads) |})).
  { induction Hall as [|[attachment up] sent_url more sent_more
                         (Hsize & Hsave & Hsend) _ IH]; intros acc.
    - cbn. rewrite !app_nil_r. by destruct acc.
    - cbn in Hsize, Hsave, Hsend. cbn [upload_all]. unfold upload_one.
      cbn [filesize_limit is_text_channel].
      apply Z.leb_le in Hsize. rewrite Hsize, Hsave, Hsend, IH. cbn.
      by rewrite <- !app_assoc. }
  rewrite Hloop. reflexivity.
Qed.

(** X13.  When every attachment is over the limit, none is uploaded.
    With [link_large] and at least one attachment they are linked from one
    embed, a line [[filename](url)] each, in order, and no url is returned;
    if the platform refuses that embed its exception is raised and nothing
    is delivered.  Without [link_large], or without attachments, nothing
    is delivered and no url is returned. *)
Theorem send_attachments_all_large (destination : Destination) :
  Forall (fun au : Attachment * Upload =>
            filesize_limit destination - 512 < size au.1) uploads ->
  send_attachments author uploads embed_answer destination link_large kwargs
  = match uploads with
    | [] => (inr [], [])
    | _ :: _ =>
        if link_large then
          match embed_answer with
          | Some e => (inl e, [])
          | None =>
              (inr [],
               [{| payload :=
                     Embed (join_lines (markdown_link <$> uploads.*1));
                   kwargs_used :=
                     if is_text_channel destination then kwargs
                     else webhook_send_kwargs author kwargs |}])
          end
        else (inr [], [])
    end.
Proof.
  intros Hall. unfold send_attachments. cbn zeta.
  assert (Hloop : forall acc,
    upload_all destination link_large kwargs
      (webhook_send_kwargs author kwargs) uploads acc
    = (None,
       {| large := if link_large then large acc ++ uploads.*1 else large acc;
          urls := urls acc; delivered := delivered acc |})).
  { induction Hall as [|[attachment up] more Hsize _ IH];
      intros acc.
    - cbn. rewrite app_nil_r. by destruct acc, link_large.
    - cbn in Hsize. cbn [upload_all]. unfold upload_one.
      replace (size attachment <=? filesize_limit destination - 512)
        with false by (symmetry; apply Z.leb_gt; lia).
      destruct link_large; rewrite IH; cbn; [|done].
      by rewrite <- app_assoc. }
  rewrite Hloop. cbn.
  destruct uploads as [|au more]; [by destruct link_large|].
  destruct link_large; [|done]. cbn. by destruct embed_answer.
Qed.

End SendAttachmentsResults.

(** ** The [off] and [on] commands, further *)

Section CommandsFurther.

Import ModPings.

Lemma elem_of_remove_ne (x y : Z) (holders : gset Z) :
  x <> y -> x ∈ holders ∖ {[y]} <-> x ∈ holders.
Proof.
  intros Hne. rewrite elem_of_difference, elem_of_singleton. tauto.
Qed.

Lemma elem_of_add_ne (x y : Z) (holders : gset Z) :
  x <> y -> x ∈ ({[y]} ∪ holders : gset Z) <-> x ∈ holders.
Proof.
  intros Hne. rewrite elem_of_union, elem_of_singleton. tauto.
Qed.

Lemma off_command_accepted_eq (author : Member) (duration : Z) (st : Cog) :
  duration - utcnow st <= timedelta 30 0 0 ->
  off_command author duration st
  = send (RemovedUntil duration)
      (set_role_scheduler
         (fun pending =>
            <[id author := (duration, reapply_role_co author)]>
              (delete (id author) pending))
         (set_pings_off_mods (fun cache => <[id author := duration]> cache)
            (remove_roles author st))).
Proof.
  intros Hok. unfold off_command.
  replace (timedelta 30 0 0 <? duration - utcnow st) with false
    by (symmetry; apply Z.ltb_ge; exact Hok).
  cbn zeta. f_equal. unfold Scheduler.contains. cbn [role_scheduler
    set_pings_off_mods remove_roles set_moderators].
  destruct (role_scheduler st !! id author) as [timer|] eqn:Hold.
  - rewrite bool_decide_eq_true_2 by eauto.
    unfold Scheduler.schedule_at, Scheduler.cancel, set_role_scheduler.
    cbn. by rewrite lookup_delete_eq.
  - rewrite bool_decide_eq_false_2 by (intros [? ?]; congruence).
    unfold Scheduler.schedule_at, set_role_scheduler. cbn. rewrite Hold.
    by rewrite delete_id.
Qed.

(** X14.  An accepted [off] leaves the moderator without the role, with the
    off-until entry set to the new expiry and with exactly the timer that
    re-applies the role at that expiry, whichever timer was pending under
    the moderator's id before; its reply is the confirmation. *)
Theorem off_command_accepted (author : Member) (duration : Z) (st : Cog) :
  duration - utcnow st <= timedelta 30 0 0 ->
  let st' := off_command author duration st in
  (id author ∉ moderators st')
  /\ pings_off_mods st' !! id author = Some duration
  /\ role_scheduler st' !! id author
     = Some (duration, reapply_role_co author)
  /\ sent st' = sent st ++ [RemovedUntil duration].
Proof.
  intros Hok. cbn zeta. rewrite off_command_accepted_eq by exact Hok. cbn.
  split; [apply not_elem_of_remove|].
  by rewrite !lookup_insert_eq.
Qed.

(** X15.  [off] and [on] touch nobody else: for any other id the off-until
    entry, the pending timer and the holding of the role are as before,
    and the shift schedules are untouched. *)
Theorem off_on_frame (author : Member) (duration other : Z) (st : Cog) :
  other <> id author ->
  (let st' := off_command author duration st in
   pings_off_mods st' !! other = pings_off_mods st !! other
   /\ role_scheduler st' !! other = role_scheduler st !! other
   /\ (other ∈ moderators st' <-> other ∈ moderators st)
   /\ modpings_schedule st' = modpings_schedule st)
  /\ (let st' := on_command author st in
      pings_off_mods st' !! other = pings_off_mods st !! other
      /\ role_scheduler st' !! other = role_scheduler st !! other
      /\ (other ∈ moderators st' <-> other ∈ moderators st)
      /\ modpings_schedule st' = modpings_schedule st).
Proof.
  intros Hne. split; cbn zeta.
  - destruct (Z.le_gt_cases (duration - utcnow st) (timedelta 30 0 0))
      as [Hok | Hlong].
    + rewrite off_command_accepted_eq by exact Hok. cbn.
      rewrite !lookup_insert_ne, lookup_delete_ne by done.
      split; [done|]. split; [done|]. split; [|done].
      by apply elem_of_remove_ne.
    + unfold off_command. apply Z.ltb_lt in Hlong. rewrite Hlong. done.
  - unfold on_command. destruct (has_role author (moderators st)); [done|].
    cbn. unfold Scheduler.cancel. rewrite !lookup_delete_ne by done.
    split; [done|]. split; [done|]. split; [|done].
    by apply elem_of_add_ne.
Qed.

(** X16.  When the timer of an accepted [off] fires at its expiry, the
    role is back and the timer is gone, but the off-until entry stays; a
    following [on] answers that the role is already there and leaves the
    entry as well. *)
Theorem off_expiry_keeps_entry (author : Member) (duration t : Z) (st : Cog) :
  duration - utcnow st <= timedelta 30 0 0 ->
  duration <= t ->
  exists st',
    fire (id author) (advance t (off_command author duration st)) = Some st'
    /\ id author ∈ moderators st'
    /\ role_scheduler st' !! id author = None
    /\ pings_off_mods st' !! id author = Some duration
    /\ on_command author st' = send AlreadyHaveRole st'
    /\ pings_off_mods (on_command author st') !! id author = Some duration.
Proof.
  intros Hok Hdue. rewrite off_command_accepted_eq by exact Hok.
  unfold fire, advance, Scheduler.due. cbn.
  rewrite lookup_insert_eq.
  replace (duration <=? Z.max t (utcnow st)) with true
    by (symmetry; apply Z.leb_le; lia).
  eexists. split; [reflexivity|]. cbn.
  assert (Hrole : id author ∈ ({[id author]} ∪ moderators st ∖ {[id author]}
                                : gset Z)) by apply elem_of_add.
  split; [exact Hrole|]. split; [apply lookup_delete_eq|].
  split; [apply lookup_insert_eq|].
  unfold on_command, has_role. cbn.
  rewrite bool_decide_eq_true_2 by exact Hrole. cbn.
  split; [reflexivity | apply lookup_insert_eq].
Qed.

End CommandsFurther.

(** ** The shift cycle, further *)

Section ShiftCycleFurther.

Import ModPings.




(** X19.  With a work time of a minute or more, the timer armed at the end
    of a shift is already due: the scheduler fires it at once, the role is
    back, and the next end of shift is asleep for another work time. *)
Theorem shift_end_rearmed_timer_is_due (mod_ : Member)
    (work_time schedule_start : Z) (st : Cog) :
  role_scheduler st !! id mod_ = None ->
  timedelta 0 0 1 <= work_time ->
  schedule_start + work_time <= utcnow st ->
  exists st',
    fire (id mod_)
      (run (remove_role_schedule_co mod_ work_time schedule_start) st)
    = Some st'
    /\ id mod_ ∈ moderators st'
    /\ role_scheduler st' !! id mod_ = None
    /\ sleeping st'
       = sleeping st
         ++ [(utcnow st + work_time,
              remove_role_schedule_co mod_ work_time
                (schedule_start + timedelta 0 0 1))].
Proof.
  intros Hfree Hwork Hnow. unfold fire, Scheduler.due. cbn.
  unfold Scheduler.schedule_at. rewrite Hfree, lookup_insert_eq.
  replace (schedule_start + timedelta 0 0 1 <=? utcnow st) with true
    by (symmetry; apply Z.leb_le; lia).
  eexists. split; [reflexivity|]. cbn. unfold add_role_schedule.
  rewrite dict_contains_member. cbn.
  split; [apply elem_of_add|]. split; [apply lookup_delete_eq | reflexivity].
Qed.

End ShiftCycleFurther.

(** ** Reconciliation at startup, further *)

Section ReconciliationFurther.

Import ModPings.

Variable pings_on : gset Z.
Variable pings_off : gmap Z Z.

Let body := reschedule_roles_body pings_on pings_off.

Lemma body_mod_team (st : Cog) (mod_ : Member) :
  mod_team (body st mod_) = mod_team st.
Proof.
  unfold body, reschedule_roles_body. rewrite dict_contains_member.
  destruct (has_role mod_ pings_on); [done|].
  by destruct (pings_off !! id mod_).
Qed.

Lemma loop_mod_team (team : list Member) (st : Cog) :
  mod_team (foldl body st team) = mod_team st.
Proof.
  revert st. induction team as [|mod_ team IH]; intros st; [done|].
  cbn. by rewrite IH, body_mod_team.
Qed.

(** Timers are armed only for those who were not holding the role. *)
Lemma body_timers_off_duty (st : Cog) (mod_ : Member) :
  (forall key, is_Some (role_scheduler st !! key) -> key ∉ pings_on) ->
  forall key, is_Some (role_scheduler (body st mod_) !! key) -> key ∉ pings_on.
Proof.
  intros Hinv key. unfold body, reschedule_roles_body, has_role.
  rewrite dict_contains_member.
  destruct (bool_decide_reflect (id mod_ ∈ pings_on)) as [Hon | Hon];
    [apply Hinv|].
  destruct (pings_off !! id mod_) as [expiry|]; [|apply Hinv].
  cbn. unfold Scheduler.schedule_at.
  destruct (role_scheduler st !! id mod_); [apply Hinv|].
  destruct (decide (key = id mod_)) as [->|Hne]; [done|].
  rewrite lookup_insert_ne by done. apply Hinv.
Qed.

Lemma loop_timers_off_duty (team : list Member) (st : Cog) :
  (forall key, is_Some (role_scheduler st !! key) -> key ∉ pings_on) ->
  forall key,
    is_Some (role_scheduler (foldl body st team) !! key) -> key ∉ pings_on.
Proof.
  revert st. induction team as [|mod_ team IH]; intros st Hinv; [done|].
  cbn. by apply IH, body_timers_off_duty.
Qed.

Lemma loop_fixed (team : list Member) (st : Cog) :
  (forall mod_, mod_ ∈ team -> body st mod_ = st) -> foldl body st team = st.
Proof.
  induction team as [|mod_ team IH]; intros Hfix; [done|].
  cbn. rewrite (Hfix mod_) by left. apply IH. intros m Hm. apply Hfix.
  by right.
Qed.

End ReconciliationFurther.

Section ReconciliationResults.

Import ModPings.

Variable clock : Z.
Variable team : list Member.
Variable holders : gset Z.
Variable off : gmap Z Z.
Variable shifts : gmap Z (Z * Z).

(** X20.  [reschedule_roles] at startup takes the role from nobody and arms
    no timer for anyone who held it: a holder of the role still holds it
    afterwards and has no pending timer. *)
Theorem reschedule_roles_holders (key : Z) :
  key ∈ holders ->
  let st' := reschedule_roles (init clock team holders off shifts) in
  key ∈ moderators st' /\ role_scheduler st' !! key = None.
Proof.
  intros Hkey. cbn zeta. unfold reschedule_roles. cbn zeta.
  cbn [init moderators pings_off_mods mod_team].
  split; [by apply loop_holders_mono|].
  destruct (role_scheduler _ !! key) as [timer|] eqn:Htimer; [|done].
  exfalso.
  apply (loop_timers_off_duty holders off team
           (init clock team holders off shifts)) with (key := key);
    [|by rewrite Htimer | done].
  intros k [? Hk]. cbn in Hk. unfold Scheduler.empty in Hk.
  by rewrite lookup_empty in Hk.
Qed.

(** X21.  Reconciliation is idempotent: running [reschedule_roles] again,
    right after the run at startup, changes nothing (the same holders, the
    same entries, the same pending timers). *)
Theorem reschedule_roles_idempotent :
  let st' := reschedule_roles (init clock team holders off shifts) in
  reschedule_roles st' = st'.
Proof.
  cbn zeta. set (st0 := init clock team holders off shifts).
  set (st' := reschedule_roles st0).
  assert (Hteam : mod_team st' = team) by apply loop_mod_team.
  assert (Hoff : pings_off_mods st' = off) by apply loop_pings_off_mods.
  unfold reschedule_roles at 1. cbn zeta. rewrite Hteam, Hoff.
  apply loop_fixed. intros mod_ Hin.
  unfold reschedule_roles_body, has_role. rewrite dict_contains_member.
  destruct (bool_decide_reflect (id mod_ ∈ moderators st')) as [Hon | Hon];
    [done|].
  assert (Hheld : id mod_ ∉ holders).
  { intros Hheld. apply Hon. by apply loop_holders_mono. }
  destruct (off !! id mod_) as [expiry|] eqn:Hentry.
  - assert (Htimer : role_scheduler st' !! id mod_
                     = Some (expiry, reapply_role_co mod_)).
    { apply loop_arms; try done. }
    unfold Scheduler.schedule_at, set_role_scheduler. rewrite Htimer.
    by destruct st'.
  - exfalso. apply Hon. by apply loop_applies.
Qed.

End ReconciliationResults.

(** ** Further worked instances *)

Section FurtherInstances.

Import ModPings Samples MoreSamples.

(** X3 with the poster reacting after 100 seconds. *)
Lemma wait_for_deletion_deletes_on_request_witness :
  let run :=
    Messages.wait_for_deletion [10] 1 quick_platform note [42] [trashcan]
      Messages.DEFAULT_TIMEOUT true true in
  Messages.deleted run.2 = true /\ run.1 = Messages.Return.
Proof.
  assert (Hdel : Messages.deleted
            (Messages.wait_for_deletion [10] 1 quick_platform note [42]
               [trashcan] Messages.DEFAULT_TIMEOUT true true).2 = true)
    by (vm_compute; reflexivity).
  exact (conj Hdel
           (proj1 (wait_for_deletion_deletes_on_request [10] 1 quick_platform
                     note [42] [trashcan] Messages.DEFAULT_TIMEOUT true true
                     Hdel))).
Defined.

(** X4 with a bystander reacting before the poster. *)
Lemma wait_for_deletion_deletes_witness :
  let run :=
    Messages.wait_for_deletion [10] 1 quick_platform note [42] [trashcan]
      Messages.DEFAULT_TIMEOUT true true in
  run.1 = Messages.Return
  /\ Messages.deleted run.2 = true
  /\ Messages.elapsed run.2 = inject_Z 100.
Proof.
  refine (wait_for_deletion_deletes [10] 1 quick_platform note [42]
            [trashcan] Messages.DEFAULT_TIMEOUT true true
            [(inject_Z 30, on_note, bystander)] []
            (inject_Z 100, on_note, poster) _ _ _ _ _ _ _).
  - discriminate.
  - intros _. repeat constructor.
  - reflexivity.
  - repeat constructor.
  - reflexivity.
  - reflexivity.
  - reflexivity.
Defined.

(** X5 with the note gone before the second emoji. *)
Lemma wait_for_deletion_message_gone_witness :
  Messages.wait_for_deletion [10] 1 vanishing_platform note [42]
    [trashcan; cross] Messages.DEFAULT_TIMEOUT true true
  = (Messages.Return,
     {| Messages.attached := [trashcan]; Messages.removed := [];
        Messages.elapsed := 0%Q; Messages.deleted := false |}).
Proof.
  refine (wait_for_deletion_message_gone [10] 1 vanishing_platform note [42]
            [trashcan] [] cross Messages.DEFAULT_TIMEOUT true _ _ _).
  - discriminate.
  - repeat constructor.
  - reflexivity.
Defined.

(** X6 on "bob". *)
Lemma sub_clyde_keeps_clean_witness :
  (forall i, Messages.occurs_at bob i = false)
  /\ Messages.sub_clyde (Some bob) = Some bob.
Proof.
  assert (Hclean : forall i, Messages.occurs_at bob i = false)
    by (intros [|[|[|[|i]]]]; reflexivity).
  exact (conj Hclean (sub_clyde_keeps_clean bob Hclean)).
Defined.

(** X12 with two small files. *)
Lemma send_attachments_all_sent_witness :
  Messages.send_attachments carol
    [(small_file, answered [120]); (small_file, answered [121])] None
    channel true no_kwargs
  = (inr [[120]; [121]],
     [{| Messages.payload := Messages.File small_file;
         Messages.kwargs_used := no_kwargs |};
      {| Messages.payload := Messages.File small_file;
         Messages.kwargs_used := no_kwargs |}]).
Proof.
  refine (send_attachments_all_sent carol
            [(small_file, answered [120]); (small_file, answered [121])]
            None true no_kwargs 8388608 [[120]; [121]] _).
  constructor; [|constructor; [|constructor]].
  - split; [vm_compute; discriminate | split; reflexivity].
  - split; [vm_compute; discriminate | split; reflexivity].
Defined.

(** X13 with one file over the limit. *)
Lemma send_attachments_all_large_witness :
  Messages.send_attachments carol [(large_file, answered [120])] None channel
    true no_kwargs
  = (inr [],
     [{| Messages.payload := Messages.Embed [91; 98; 93; 40; 117; 50; 41];
         Messages.kwargs_used := no_kwargs |}]).
Proof.
  refine (send_attachments_all_large carol [(large_file, answered [120])]
            None true no_kwargs channel _).
  repeat constructor.
Defined.

(** X14 with a second [off] while the timer of the first is pending. *)
Lemma off_command_accepted_witness :
  role_scheduler (off_command alice T quiet) !! 7
  = Some (T, reapply_role_co alice)
  /\ role_scheduler
       (off_command alice (T + timedelta 1 0 0) (off_command alice T quiet))
       !! 7
     = Some (T + timedelta 1 0 0, reapply_role_co alice).
Proof.
  assert (Hok : T + timedelta 1 0 0 - utcnow (off_command alice T quiet)
                <= timedelta 30 0 0) by (vm_compute; discriminate).
  split; [vm_compute; reflexivity|].
  exact (proj1 (proj2 (proj2
           (off_command_accepted alice (T + timedelta 1 0 0)
              (off_command alice T quiet) Hok)))).
Defined.

(** X15 with alice's commands and the id 8. *)
Lemma off_on_frame_witness :
  (8 <> id alice)
  /\ role_scheduler (off_command alice T suppressed) !! 8
     = role_scheduler suppressed !! 8.
Proof.
  assert (Hne : 8 <> id alice) by discriminate.
  exact (conj Hne
           (proj1 (proj2 (proj1 (off_on_frame alice T 8 suppressed Hne))))).
Defined.

(** X16 with an [off] until [T] firing at [T]. *)
Lemma off_expiry_keeps_entry_witness :
  exists st',
    fire 7 (advance T (off_command alice T quiet)) = Some st'
    /\ 7 ∈ moderators st'
    /\ role_scheduler st' !! 7 = None
    /\ pings_off_mods st' !! 7 = Some T
    /\ on_command alice st' = send AlreadyHaveRole st'
    /\ pings_off_mods (on_command alice st') !! 7 = Some T.
Proof.
  refine (off_expiry_keeps_entry alice T T quiet _ _).
  - vm_compute. discriminate.
  - vm_compute. discriminate.
Defined.



(** X19 at the end of alice's first shift. *)
Lemma shift_end_rearmed_timer_is_due_witness :
  exists st',
    fire 7 (run (remove_role_schedule_co alice twenty_hours T) shift_over)
    = Some st'
    /\ 7 ∈ moderators st'.
Proof.
  assert (Hfree : role_scheduler shift_over !! id alice = None)
    by (vm_compute; reflexivity).
  assert (Hwork : timedelta 0 0 1 <= twenty_hours)
    by (vm_compute; discriminate).
  assert (Hnow : T + twenty_hours <= utcnow shift_over)
    by (vm_compute; discriminate).
  destruct (shift_end_rearmed_timer_is_due alice twenty_hours T shift_over
              Hfree Hwork Hnow) as (st' & Hfire & Hrole & _).
  exists st'. exact (conj Hfire Hrole).
Defined.

(** X20 with alice holding the role beside a stale entry. *)
Lemma reschedule_roles_holders_witness :
  7 ∈ moderators (reschedule_roles stale)
  /\ role_scheduler (reschedule_roles stale) !! 7 = None.
Proof.
  refine (reschedule_roles_holders (T - timedelta 0 1 0) [alice] {[ 7 ]}
            {[ 7 := T ]} ∅ 7 _).
  by apply elem_of_singleton.
Defined.

End FurtherInstances.
